(** * AFP Sim: signal model, adaptive sampler, simulation clock, audio envelope

    A shallow embedding of the TypeScript sources

      - [src/math/signal.ts]            (module [Signal])
      - [src/audio/useWebAudioSine.ts]  (module [Audio])
      - [src/components/TimePlotCanvas.tsx], sampling sweep (module [TimePlot])
      - [src/components/PhasorCanvas.tsx], phasor vectors (module [Phasor])
      - [src/App.tsx], rAF clock and reset handler (module [App])
      - [src/math/units.ts]             (module [Units])
      - [src/components/Controls.tsx], phase slider (module [Controls])
      - [src/components/SpectrumCanvas.tsx], stems (module [Spectrum])
      - plot coordinates, phasor layout, parameter handlers and automation
        logs (modules [TimePlotView], [PhasorView], [AppHandlers],
        [AudioLog])

    Number model.  A JavaScript [number] is modelled as a real number of
    [R]: arithmetic is exact, there is no NaN, no infinity and no rounding
    of binary64 operations.  [Math.ceil], [Math.max], [Math.min], [Math.sin]
    and the remainder operator [%] are the corresponding functions on [R].
    The one place where the source narrows a number, the store into a
    [Float32Array], is kept visible as an explicit rounding function
    ([fround]) that the sampling sweep is parametrised by.

    What is proved on this model is proved for exact arithmetic.  Where the
    rounding of binary64 makes the code differ from it, the expressions of
    the source are evaluated again on primitive binary64 floats (module
    [B64]), and the difference is stated at concrete inputs. *)

From Stdlib Require Import Reals Lra Lia ZArith Bool String.
From stdpp Require Import base list.
From Stdlib Require PrimFloat SpecFloat FloatOps.

Local Open Scope R_scope.

(** ** JavaScript numeric primitives on the real-number model *)

Module JS.

Definition number := R.

Definition Math_PI : number := PI.
Definition Math_max (a b : number) : number := Rmax a b.
Definition Math_min (a b : number) : number := Rmin a b.
Definition Math_max3 (a b c : number) : number := Rmax (Rmax a b) c.
Definition Math_ceil (x : number) : number := IZR (Zceil x).
Definition Math_floor (x : number) : number := IZR (Zfloor x).
Definition Math_sin (x : number) : number := sin x.

(** Truncation toward zero, the quotient used by [%]. *)
Definition truncZ (x : number) : Z :=
  if Rle_dec 0 x then Zfloor x else Zceil x.

(** [a % b]: the remainder has the sign of the dividend. *)
Definition rem (a b : number) : number := a - b * IZR (truncZ (a / b)).

End JS.

(** ** src/math/signal.ts *)

Module Signal.
Import JS.

Record SignalParams : Type := mkSignal {
  amplitude : number;
  frequency : number;
  phaseRad : number
}.

Definition MIN_AMPLITUDE : number := 0.
Definition MAX_AMPLITUDE : number := 5.
Definition MIN_VISUAL_FREQUENCY : number := 0.1.
Definition MAX_VISUAL_FREQUENCY : number := 20.
Definition MIN_AUDIO_FREQUENCY : number := 20.
Definition MAX_AUDIO_FREQUENCY : number := 2000.
Definition MIN_WINDOW_SECONDS : number := 1.
Definition MAX_WINDOW_SECONDS : number := 10.

Definition DEFAULT_WINDOW_SECONDS : number := 2.

Definition DEFAULT_SIGNAL_1 : SignalParams :=
  {| amplitude := 1; frequency := 1; phaseRad := 0 |}.

Definition DEFAULT_SIGNAL_2 : SignalParams :=
  {| amplitude := 1; frequency := 1; phaseRad := Math_PI / 2 |}.

Definition clamp (value min max : number) : number :=
  Math_min max (Math_max min value).

Definition normalizePhase (phaseRad : number) : number :=
  let tau := 2 * Math_PI in
  let wrapped := rem (rem (phaseRad + Math_PI) tau + tau) tau - Math_PI in
  if Req_dec_T wrapped (- Math_PI) then Math_PI else wrapped.

Definition thetaAt (tSec : number) (signal : SignalParams) : number :=
  2 * Math_PI * frequency signal * tSec + phaseRad signal.

Definition signalAt (tSec : number) (signal : SignalParams) : number :=
  amplitude signal * Math_sin (thetaAt tSec signal).

Definition periodFromFrequency (frequencyHz : number) : number :=
  let safeFreq := Math_max frequencyHz 1e-6 in
  1 / safeFreq.




Definition adaptiveSampleCount
    (maxFrequencyHz windowSeconds pixelWidth : number) : number :=
  let kSamplesPerCycleWindow := 220 in
  let byFrequency :=
    Math_ceil
      (kSamplesPerCycleWindow * Math_max maxFrequencyHz MIN_VISUAL_FREQUENCY
       * windowSeconds) in
  let byPixels := Math_ceil (pixelWidth * 1.6) in
  let minSamples := 320 in
  let maxSamples := 12000 in
  clamp (Math_max3 minSamples byFrequency byPixels) minSamples maxSamples.

(** [signal2?: SignalParams] is an [option]; the defaulted flags are passed
    explicitly. *)
Definition maxDisplayedAmplitude
    (signal1 : SignalParams) (signal2 : option SignalParams)
    (showSum showDiff : bool) : number :=
  let maxValue := Math_max 1 (amplitude signal1) in
  match signal2 with
  | Some s2 =>
      let maxValue := Math_max maxValue (amplitude s2) in
      let maxValue :=
        if showSum then Math_max maxValue (amplitude signal1 + amplitude s2)
        else maxValue in
      let maxValue :=
        if showDiff then Math_max maxValue (amplitude signal1 + amplitude s2)
        else maxValue in
      maxValue
  | None => maxValue
  end.

End Signal.

(** ** src/audio/useWebAudioSine.ts *)

Module Audio.
Import JS Signal.

Definition MAX_GAIN : number := 0.2.
Definition RAMP_SECONDS : number := 0.03.

(** An [AudioParam] is the log of the automation calls made on it, the
    most recent call first. *)
Inductive AutomationEvent : Type :=
| SetValueAtTime (value time : number)
| SetTargetAtTime (target startTime timeConstant : number)
| CancelScheduledValues (time : number).

Definition AudioParam := list AutomationEvent.

(** The value an automation call drives the parameter to, if any. *)
Definition eventValue (e : AutomationEvent) : option number :=
  match e with
  | SetValueAtTime v _ => Some v
  | SetTargetAtTime v _ _ => Some v
  | CancelScheduledValues _ => None
  end.

(** The target of the most recent call that sets one. *)
Fixpoint targetOf (p : AudioParam) : option number :=
  match p with
  | [] => None
  | e :: rest =>
      match eventValue e with
      | Some v => Some v
      | None => targetOf rest
      end
  end.

Record OscillatorNode : Type := mkOscillator {
  osc_frequency : AudioParam;
  osc_startedAt : option number;
  osc_connected : bool
}.

Record GainNode : Type := mkGain {
  gain_gain : AudioParam;
  gain_connected : bool
}.

(** The state of the hook: the two [useState] cells and the three refs.
    [contextRef] records only whether an [AudioContext] exists; its clock
    [currentTime] is supplied by the host at each call as [now]. *)
Record Hook : Type := mkHook {
  isStarted : bool;
  error : option string;
  contextRef : bool;
  oscillatorRef : option OscillatorNode;
  gainRef : option GainNode
}.

Definition initial : Hook :=
  {| isStarted := false; error := None; contextRef := false;
     oscillatorRef := None; gainRef := None |}.

Definition cleanupNodes (h : Hook) : Hook :=
  if negb (contextRef h) then h
  else {| isStarted := isStarted h; error := error h;
          contextRef := contextRef h;
          oscillatorRef := None; gainRef := None |}.

(** The gain node is ramped to zero and then released with the oscillator,
    so the ramp is not observable in the hook state afterwards. *)
Definition stop (h : Hook) : Hook :=
  let h' := cleanupNodes h in
  {| isStarted := false; error := error h'; contextRef := contextRef h';
     oscillatorRef := oscillatorRef h'; gainRef := gainRef h' |}.

(** What the platform does with the calls of the [try] block of [start]:
    everything works, [new AudioContext()] throws, or the context exists
    and creating the nodes throws. *)
Inductive Platform : Type := Available | NoAudioContext | NoNodes.

Definition failed (h : Hook) : Hook :=
  {| isStarted := false;
     error := Some "Audio could not be started in this browser."%string;
     contextRef := contextRef h;
     oscillatorRef := oscillatorRef h; gainRef := gainRef h |}.

Definition withContext (h : Hook) : Hook :=
  {| isStarted := isStarted h; error := error h; contextRef := true;
     oscillatorRef := oscillatorRef h; gainRef := gainRef h |}.

Definition start (platform : Platform) (now amplitude frequency : number)
    (h : Hook) : Hook :=
  match platform, contextRef h with
  | NoAudioContext, false => failed h
  | _, _ =>
      let h1 := cleanupNodes (withContext h) in
      match platform with
      | NoNodes => failed h1
      | _ =>
          let safeFrequency :=
            clamp frequency MIN_AUDIO_FREQUENCY MAX_AUDIO_FREQUENCY in
          let safeGain := clamp (amplitude / MAX_AMPLITUDE) 0 1 * MAX_GAIN in
          let oscillator :=
            {| osc_frequency := [SetValueAtTime safeFrequency now];
               osc_startedAt := Some now; osc_connected := true |} in
          let gainNode :=
            {| gain_gain := [SetTargetAtTime safeGain now RAMP_SECONDS;
                             SetValueAtTime 0 now];
               gain_connected := true |} in
          {| isStarted := true; error := None; contextRef := contextRef h1;
             oscillatorRef := Some oscillator; gainRef := Some gainNode |}
      end
  end.

(** The effect on [enabled, isStarted, stop]. *)
Definition disableEffect (enabled : bool) (h : Hook) : Hook :=
  if negb enabled && isStarted h then stop h else h.

(** The effect on [amplitude, enabled, frequency, isStarted]: the
    parameter update applied to the live nodes. *)
Definition updateEffect (enabled : bool) (now amplitude frequency : number)
    (h : Hook) : Hook :=
  if negb (isStarted h) || negb enabled then h
  else
    match contextRef h, oscillatorRef h, gainRef h with
    | true, Some oscillator, Some gainNode =>
        let safeFrequency :=
          clamp frequency MIN_AUDIO_FREQUENCY MAX_AUDIO_FREQUENCY in
        let safeGain := clamp (amplitude / MAX_AMPLITUDE) 0 1 * MAX_GAIN in
        let oscillator' :=
          {| osc_frequency :=
               SetTargetAtTime safeFrequency now RAMP_SECONDS
               :: CancelScheduledValues now :: osc_frequency oscillator;
             osc_startedAt := osc_startedAt oscillator;
             osc_connected := osc_connected oscillator |} in
        let gainNode' :=
          {| gain_gain :=
               SetTargetAtTime safeGain now RAMP_SECONDS
               :: CancelScheduledValues now :: gain_gain gainNode;
             gain_connected := gain_connected gainNode |} in
        {| isStarted := isStarted h; error := error h;
           contextRef := contextRef h;
           oscillatorRef := Some oscillator'; gainRef := Some gainNode' |}
    | _, _, _ => h
    end.

(** What the oscillator and the gain node are currently driven to. *)
Definition appliedFrequency (h : Hook) : option number :=
  o ← oscillatorRef h; targetOf (osc_frequency o).

Definition targetGain (h : Hook) : option number :=
  g ← gainRef h; targetOf (gain_gain g).

(** A bound on what a parameter is driven to, when it is driven at all. *)
Definition within (lo hi : number) (target : option number) : Prop :=
  match target with
  | Some v => lo <= v <= hi
  | None => True
  end.

(** One action of the hook's owner; a run is a list of them. *)
Inductive Action : Type :=
| Start (platform : Platform) (now amplitude frequency : number)
| Stop
| Render (enabled : bool) (now amplitude frequency : number).

Definition step (h : Hook) (a : Action) : Hook :=
  match a with
  | Start platform now amplitude frequency =>
      start platform now amplitude frequency h
  | Stop => stop h
  | Render enabled now amplitude frequency =>
      updateEffect enabled now amplitude frequency (disableEffect enabled h)
  end.

Definition run (actions : list Action) (h : Hook) : Hook :=
  foldl step h actions.

End Audio.

(** ** src/components/TimePlotCanvas.tsx: the sampling sweep *)

Module TimePlot.
Import JS Signal.

Record TimePlotCanvasProps : Type := mkProps {
  tNow : number;
  windowSec : number;
  signal1 : SignalParams;
  signal2 : SignalParams;
  compareMode : bool;
  showSum : bool;
  showDiff : bool
}.

Record Viewport : Type := mkViewport {
  width : number;
  height : number;
  dpr : number
}.

Definition PADDING_left : number := 56.
Definition PADDING_right : number := 16.
Definition PADDING_top : number := 18.
Definition PADDING_bottom : number := 38.

(** The [useState] initial value and the value [resize] stores. *)
Definition initialViewport : Viewport :=
  {| width := 640; height := 320; dpr := 1 |}.

Definition resize (rectWidth rectHeight devicePixelRatio : number)
    : Viewport :=
  {| width := Math_max 280 (Math_floor rectWidth);
     height := Math_max 220 (Math_floor rectHeight);
     dpr := if Req_dec_T devicePixelRatio 0 then 1 else devicePixelRatio |}.

(** A [Float32Array] is the list of its elements.  An indexed store
    outside the array is ignored, as stdpp's list insert does; an indexed
    read outside it is [undefined], here [None]. *)
Abbreviation Float32Array := (list number).

Definition new_Float32Array (len : number) : Float32Array :=
  replicate (Z.to_nat (truncZ len)) 0.

Definition ensureCapacity (buffer : Float32Array) (targetLength : number)
    : Float32Array :=
  if Rge_dec (INR (length buffer)) targetLength then buffer
  else new_Float32Array targetLength.


Record Buffers : Type := mkBuffers {
  timeBuffer : Float32Array;
  y1Buffer : Float32Array;
  y2Buffer : Float32Array;
  sumBuffer : Float32Array;
  diffBuffer : Float32Array
}.

(** The five refs start as [new Float32Array(0)]. *)
Definition emptyBuffers : Buffers :=
  {| timeBuffer := []; y1Buffer := []; y2Buffer := [];
     sumBuffer := []; diffBuffer := [] |}.

Section Sweep.
(** The rounding a store into a [Float32Array] applies. *)
Variable fround : number -> number.

Definition store (i : nat) (value : number) (buffer : Float32Array)
    : Float32Array :=
  <[i := fround value]> buffer.

(** The body of the [for] loop at index [i]. *)
Definition sweepBody (props : TimePlotCanvasProps)
    (tStart invSample : number) (b : Buffers) (i : nat) : Buffers :=
  let t := tStart + INR i * invSample * windowSec props in
  let y1 := signalAt t (signal1 props) in
  let y2 := signalAt t (signal2 props) in
  {| timeBuffer := store i t (timeBuffer b);
     y1Buffer := store i y1 (y1Buffer b);
     y2Buffer := store i y2 (y2Buffer b);
     sumBuffer := store i (y1 + y2) (sumBuffer b);
     diffBuffer := store i (y1 - y2) (diffBuffer b) |}.

(** [for (let i = 0; i < sampleCount; i += 1)] runs its body for the
    naturals below [sampleCount], in order. *)
Definition iterations (sampleCount : number) : list nat :=
  seq 0 (Z.to_nat (Zceil sampleCount)).

Record Sweep : Type := mkSweep {
  sampleCount : number;
  buffers : Buffers
}.

(** The drawing effect up to the end of the sampling loop; [None] is the
    early [return] on a plot area that is too small. *)
Definition sample (props : TimePlotCanvasProps) (viewport : Viewport)
    (refs : Buffers) : option Sweep :=
  let plotWidth := width viewport - PADDING_left - PADDING_right in
  let plotHeight := height viewport - PADDING_top - PADDING_bottom in
  if Rle_dec plotWidth 16 then None
  else if Rle_dec plotHeight 16 then None
  else
    let maxFrequency :=
      if compareMode props
      then Math_max (frequency (signal1 props)) (frequency (signal2 props))
      else frequency (signal1 props) in
    let sampleCount :=
      adaptiveSampleCount maxFrequency (windowSec props) plotWidth in
    let tStart := tNow props - windowSec props in
    let invSample :=
      if Rgt_dec sampleCount 1 then 1 / (sampleCount - 1) else 1 in
    let refs :=
      {| timeBuffer := ensureCapacity (timeBuffer refs) sampleCount;
         y1Buffer := ensureCapacity (y1Buffer refs) sampleCount;
         y2Buffer := ensureCapacity (y2Buffer refs) sampleCount;
         sumBuffer := ensureCapacity (sumBuffer refs) sampleCount;
         diffBuffer := ensureCapacity (diffBuffer refs) sampleCount |} in
    Some {| sampleCount := sampleCount;
            buffers := foldl (sweepBody props tStart invSample) refs
                         (iterations sampleCount) |}.


End Sweep.

End TimePlot.

(** ** src/components/PhasorCanvas.tsx: the phasor vectors *)

Module Phasor.
Import JS Signal.



End Phasor.

(** ** src/App.tsx: the animation clock and the reset handler *)

Module App.
Import JS Signal.

Inductive PhaseUnit : Type := rad | deg.
Inductive HighlightKey : Type :=
| KeyAmplitude | KeyFrequency | KeyPhase | KeyWindow | KeyNone.
Inductive PhaseShiftDirection : Type := ShiftLeft | ShiftRight | ShiftNone.

(** The [useState] cells and the two refs of [App], with the state of the
    audio hook it owns. *)
Record State : Type := mkState {
  signal1 : SignalParams;
  signal2 : SignalParams;
  windowSec : number;
  compareMode : bool;
  lockSignal1 : bool;
  showSum : bool;
  showDiff : bool;
  showSpectrum : bool;
  phaseUnit : PhaseUnit;
  isPlaying : bool;
  tNow : number;
  simTimeRef : number;
  lastRafMsRef : option number;
  lastChanged : HighlightKey;
  phaseShiftDirection : PhaseShiftDirection;
  audioMode : bool;
  audioFrequency : number;
  audio : Audio.Hook
}.

Definition initial : State :=
  {| signal1 := DEFAULT_SIGNAL_1; signal2 := DEFAULT_SIGNAL_2;
     windowSec := DEFAULT_WINDOW_SECONDS;
     compareMode := false; lockSignal1 := true;
     showSum := true; showDiff := false; showSpectrum := false;
     phaseUnit := rad;
     isPlaying := true; tNow := 0; simTimeRef := 0; lastRafMsRef := None;
     lastChanged := KeyNone; phaseShiftDirection := ShiftNone;
     audioMode := false; audioFrequency := MIN_AUDIO_FREQUENCY;
     audio := Audio.initial |}.

Definition setClock (isPlaying' : bool) (tNow' simTime' : number)
    (lastRafMs' : option number) (s : State) : State :=
  {| signal1 := signal1 s; signal2 := signal2 s; windowSec := windowSec s;
     compareMode := compareMode s; lockSignal1 := lockSignal1 s;
     showSum := showSum s; showDiff := showDiff s;
     showSpectrum := showSpectrum s; phaseUnit := phaseUnit s;
     isPlaying := isPlaying'; tNow := tNow'; simTimeRef := simTime';
     lastRafMsRef := lastRafMs';
     lastChanged := lastChanged s;
     phaseShiftDirection := phaseShiftDirection s;
     audioMode := audioMode s; audioFrequency := audioFrequency s;
     audio := audio s |}.

(** The [requestAnimationFrame] callback [tick]. *)
Definition tick (nowMs : number) (s : State) : State :=
  let simTime :=
    match lastRafMsRef s with
    | Some last => simTimeRef s + (nowMs - last) / 1000
    | None => simTimeRef s
    end in
  setClock (isPlaying s) simTime simTime (Some nowMs) s.

(** The effect on [isPlaying]: while paused it drops the stored timestamp
    and requests no frame; while playing the callback is requested again
    after every frame.  So the host runs [tick] on a frame exactly when
    [isPlaying] holds. *)
Definition playingEffect (s : State) : State :=
  if isPlaying s then s
  else setClock false (tNow s) (simTimeRef s) None s.

Definition frame (nowMs : number) (s : State) : State :=
  if isPlaying s then tick nowMs s else s.

(** [onPlayPause], followed by the effect its state change triggers. *)
Definition playPause (s : State) : State :=
  playingEffect
    (setClock (negb (isPlaying s)) (tNow s) (simTimeRef s) (lastRafMsRef s) s).

Definition handleReset (s : State) : State :=
  playingEffect
    {| signal1 := DEFAULT_SIGNAL_1; signal2 := DEFAULT_SIGNAL_2;
       windowSec := DEFAULT_WINDOW_SECONDS;
       compareMode := false; lockSignal1 := true;
       showSum := true; showDiff := false; showSpectrum := false;
       phaseUnit := rad;
       isPlaying := true; tNow := 0; simTimeRef := 0; lastRafMsRef := None;
       lastChanged := KeyNone; phaseShiftDirection := ShiftNone;
       audioMode := false; audioFrequency := MIN_AUDIO_FREQUENCY;
       audio := Audio.stop (audio s) |}.

(** The frames the host delivers, oldest first. *)
Definition frames (timestamps : list number) (s : State) : State :=
  foldl (fun s nowMs => frame nowMs s) s timestamps.

End App.

(** ** src/math/units.ts *)

Module Units.
Import JS App.


Definition degToRad (deg : number) : number := deg * Math_PI / 180.


Definition phaseFromUnit (value : number) (unit : PhaseUnit) : number :=
  match unit with
  | App.deg => degToRad value
  | App.rad => value
  end.

End Units.

(** ** src/components/Controls.tsx: the phase slider *)

Module Controls.
Import JS Signal App.

Record Bounds : Type := mkBounds {
  min : number;
  max : number;
  step : number;
  label : string
}.

Definition phaseBounds (unit : PhaseUnit) : Bounds :=
  match unit with
  | App.deg => {| min := -180; max := 180; step := 0.1; label := "deg" |}
  | App.rad =>
      {| min := - Math_PI; max := Math_PI; step := 0.001; label := "rad" |}
  end.

(** The signal the phase slider of [SignalEditor] passes to [onChange] for a
    slider value. *)
Definition phaseEdit (signal : SignalParams) (value : number)
    (unit : PhaseUnit) : SignalParams :=
  {| amplitude := amplitude signal; frequency := frequency signal;
     phaseRad := Units.phaseFromUnit value unit |}.

End Controls.

(** ** src/components/TimePlotCanvas.tsx: the plot coordinates *)

Module TimePlotView.
Import JS Signal TimePlot.

(** The second argument of [maxDisplayedAmplitude] in both canvases:
    [compareMode ? signal2 : undefined]. *)
Definition shown (compareMode : bool) (signal2 : SignalParams)
    : option SignalParams :=
  if compareMode then Some signal2 else None.

Definition yMax (props : TimePlotCanvasProps) : number :=
  Math_max 1
    (maxDisplayedAmplitude (signal1 props)
       (shown (compareMode props) (signal2 props))
       (showSum props) (showDiff props) * 1.2).

(** The closures [toX] and [toY], with the values they capture. *)
Definition toX (invSample plotWidth index : number) : number :=
  PADDING_left + index * invSample * plotWidth.

Definition toY (yMax plotHeight value : number) : number :=
  PADDING_top + ((yMax - value) / (2 * yMax)) * plotHeight.


End TimePlotView.

(** ** src/components/PhasorCanvas.tsx: the layout of the vectors *)

Module PhasorView.
Import JS Signal TimePlot.

(** The [useState] initial value; [resize] is the one of [TimePlot]. *)
Definition initialViewport : Viewport :=
  {| width := 640; height := 300; dpr := 1 |}.







End PhasorView.

(** ** src/components/SpectrumCanvas.tsx: the stems *)

Module Spectrum.
Import JS Signal.

Definition PAD_left : number := 52.
Definition PAD_right : number := 16.
Definition PAD_top : number := 20.
Definition PAD_bottom : number := 36.

Definition maxFrequency (signal1 signal2 : SignalParams)
    (compareMode : bool) : number :=
  Math_max3 20 (frequency signal1 * 1.2)
    (if compareMode then frequency signal2 * 1.2 else 0).

Definition maxAmplitude (signal1 signal2 : SignalParams)
    (compareMode : bool) : number :=
  Math_max3 1 (amplitude signal1)
    (if compareMode then amplitude signal2 else 0).

Definition toX (maxFrequency plotWidth frequency : number) : number :=
  PAD_left + (frequency / maxFrequency) * plotWidth.

Definition toY (maxAmplitude plotHeight amplitude : number) : number :=
  PAD_top + plotHeight - (amplitude / maxAmplitude) * plotHeight.

End Spectrum.

(** ** src/App.tsx: the parameter handlers *)

Module AppHandlers.
Import JS Signal App.

Inductive ParameterKey : Type := ParamAmplitude | ParamFrequency | ParamPhase.

Definition highlight (key : ParameterKey) : HighlightKey :=
  match key with
  | ParamAmplitude => KeyAmplitude
  | ParamFrequency => KeyFrequency
  | ParamPhase => KeyPhase
  end.

(** The state setters the handlers call. *)
Definition setSignals (signal1' signal2' : SignalParams) (s : State)
    : State :=
  {| signal1 := signal1'; signal2 := signal2'; windowSec := windowSec s;
     compareMode := compareMode s; lockSignal1 := lockSignal1 s;
     showSum := showSum s; showDiff := showDiff s;
     showSpectrum := showSpectrum s; phaseUnit := phaseUnit s;
     isPlaying := isPlaying s; tNow := tNow s; simTimeRef := simTimeRef s;
     lastRafMsRef := lastRafMsRef s;
     lastChanged := lastChanged s;
     phaseShiftDirection := phaseShiftDirection s;
     audioMode := audioMode s; audioFrequency := audioFrequency s;
     audio := audio s |}.

Definition setModes (compareMode' lockSignal1' : bool) (s : State) : State :=
  {| signal1 := signal1 s; signal2 := signal2 s; windowSec := windowSec s;
     compareMode := compareMode'; lockSignal1 := lockSignal1';
     showSum := showSum s; showDiff := showDiff s;
     showSpectrum := showSpectrum s; phaseUnit := phaseUnit s;
     isPlaying := isPlaying s; tNow := tNow s; simTimeRef := simTimeRef s;
     lastRafMsRef := lastRafMsRef s;
     lastChanged := lastChanged s;
     phaseShiftDirection := phaseShiftDirection s;
     audioMode := audioMode s; audioFrequency := audioFrequency s;
     audio := audio s |}.

Definition setHints (lastChanged' : HighlightKey)
    (phaseShiftDirection' : PhaseShiftDirection) (s : State) : State :=
  {| signal1 := signal1 s; signal2 := signal2 s; windowSec := windowSec s;
     compareMode := compareMode s; lockSignal1 := lockSignal1 s;
     showSum := showSum s; showDiff := showDiff s;
     showSpectrum := showSpectrum s; phaseUnit := phaseUnit s;
     isPlaying := isPlaying s; tNow := tNow s; simTimeRef := simTimeRef s;
     lastRafMsRef := lastRafMsRef s;
     lastChanged := lastChanged';
     phaseShiftDirection := phaseShiftDirection';
     audioMode := audioMode s; audioFrequency := audioFrequency s;
     audio := audio s |}.

(** [registerPhaseShift]: the direction it stores, or the old one when the
    change is below the threshold. *)
Definition registerPhaseShift (previous next : number)
    (direction : PhaseShiftDirection) : PhaseShiftDirection :=
  let delta := normalizePhase (next - previous) in
  if Rlt_dec (Rabs delta) 1e-8 then direction
  else if Rgt_dec delta 0 then ShiftLeft else ShiftRight.

Definition handleSignal1Change (next : SignalParams) (key : ParameterKey)
    (s : State) : State :=
  let direction :=
    match key with
    | ParamPhase =>
        registerPhaseShift (phaseRad (signal1 s)) (phaseRad next)
          (phaseShiftDirection s)
    | _ => phaseShiftDirection s
    end in
  setHints (highlight key) direction (setSignals next (signal2 s) s).

Definition handleSignal2Change (next : SignalParams) (key : ParameterKey)
    (s : State) : State :=
  let direction :=
    match key with
    | ParamPhase =>
        registerPhaseShift (phaseRad (signal2 s)) (phaseRad next)
          (phaseShiftDirection s)
    | _ => phaseShiftDirection s
    end in
  setHints (highlight key) direction (setSignals (signal1 s) next s).

Definition handleLockSignal1Change (nextLocked : bool) (s : State) : State :=
  let s' := setModes (compareMode s) nextLocked s in
  if nextLocked then setSignals DEFAULT_SIGNAL_1 (signal2 s') s' else s'.

Definition handleCompareModeChange (nextCompareMode : bool) (s : State)
    : State :=
  let s' := setModes nextCompareMode (lockSignal1 s) s in
  if nextCompareMode && lockSignal1 s
  then setSignals DEFAULT_SIGNAL_1 (signal2 s') s' else s'.

(** What the user and the host can do to the page.  The editor of signal 1
    is [disabled] while [compareMode && lockSignal1]; the editor of signal 2
    and the lock checkbox are rendered only in compare mode.  An event on a
    control that is disabled or not rendered does not occur. *)
Inductive Event : Type :=
| EditSignal1 (next : SignalParams) (key : ParameterKey)
| EditSignal2 (next : SignalParams) (key : ParameterKey)
| ToggleCompare (value : bool)
| ToggleLock (value : bool)
| PlayPause
| Reset
| Frame (nowMs : number).

Definition available (s : State) (e : Event) : bool :=
  match e with
  | EditSignal1 _ _ => negb (compareMode s && lockSignal1 s)
  | EditSignal2 _ _ => compareMode s
  | ToggleLock _ => compareMode s
  | _ => true
  end.

Definition handle (s : State) (e : Event) : State :=
  if available s e then
    match e with
    | EditSignal1 next key => handleSignal1Change next key s
    | EditSignal2 next key => handleSignal2Change next key s
    | ToggleCompare value => handleCompareModeChange value s
    | ToggleLock value => handleLockSignal1Change value s
    | PlayPause => playPause s
    | Reset => handleReset s
    | Frame nowMs => frame nowMs s
    end
  else s.

Definition session (events : list Event) : State := foldl handle initial events.

(** Timestamps that never go back, starting from [a]. *)
Fixpoint nondecreasing (a : number) (timestamps : list number) : Prop :=
  match timestamps with
  | [] => True
  | t :: rest => a <= t /\ nondecreasing t rest
  end.

End AppHandlers.

(** ** src/audio/useWebAudioSine.ts: the shape of the automation logs *)

Module AudioLog.
Import JS Signal Audio.

(** A call that changes a parameter smoothly or only cancels. *)
Definition ramp (e : AutomationEvent) : Prop :=
  match e with
  | SetTargetAtTime _ _ timeConstant => timeConstant = RAMP_SECONDS
  | CancelScheduledValues _ => True
  | SetValueAtTime _ _ => False
  end.

(** A gain log: ramps, and immediate settings to silence only. *)
Definition quietStart (e : AutomationEvent) : Prop :=
  match e with
  | SetValueAtTime value _ => value = 0
  | _ => ramp e
  end.

Definition gainLog (h : Hook) : AudioParam :=
  match gainRef h with
  | Some g => gain_gain g
  | None => []
  end.

Definition frequencyLog (h : Hook) : AudioParam :=
  match oscillatorRef h with
  | Some o => osc_frequency o
  | None => []
  end.

(** A frequency log: empty, or ramps on top of the one immediate setting
    made when the oscillator was created. *)
Definition rampsAfterCreation (p : AudioParam) : Prop :=
  p = [] \/
  exists newer value time,
    p = newer ++ [SetValueAtTime value time] /\ Forall ramp newer.

(** The shape of the logs of the live nodes that every action keeps. *)
Definition smooth (h : Hook) : Prop :=
  Forall quietStart (gainLog h) /\
  match oscillatorRef h with
  | Some o =>
      exists newer value time,
        osc_frequency o = newer ++ [SetValueAtTime value time] /\
        Forall ramp newer
  | None => True
  end.

(** Nodes exist exactly while the hook is started, only with a context,
    and then no error is shown. *)
Definition wellFormed (h : Hook) : Prop :=
  isStarted h = bool_decide (is_Some (oscillatorRef h)) /\
  isStarted h = bool_decide (is_Some (gainRef h)) /\
  (isStarted h = true -> contextRef h = true /\ error h = None).

End AudioLog.

(** ** Binary64 evaluation of the number-valued expressions

    The same source expressions on IEEE 754 binary64, the number type of
    JavaScript, through Rocq's primitive floats.  [Math.ceil] and [%] are
    computed exactly on the significand and exponent of their arguments. *)

Module B64.
Import PrimFloat SpecFloat FloatOps.
Local Open Scope float_scope.

(** A decimal literal denotes the nearest binary64 number, as in the
    source. *)
#[local] Set Warnings "-inexact-float".

Definition number := float.

Definition Math_PI : number := 3.141592653589793.

(** [Math.max] and [Math.min] of two numbers: NaN if either is NaN, and
    [-0] below [+0]. *)
Definition Math_max (a b : number) : number :=
  if (is_nan a || is_nan b)%bool then nan
  else if a <? b then b
  else if b <? a then a
  else if (is_zero a && get_sign a)%bool then b else a.

Definition Math_min (a b : number) : number :=
  if (is_nan a || is_nan b)%bool then nan
  else if a <? b then a
  else if b <? a then b
  else if (is_zero a && negb (get_sign a))%bool then b else a.

(** [Math.ceil]: a finite [x = m * 2^e] with [e >= 0] is an integer; below
    that the quotient of [m] by [2^-e] is rounded toward plus infinity. *)
Definition Math_ceil (x : number) : number :=
  match Prim2SF x with
  | S754_finite s m e =>
      if (0 <=? e)%Z then x
      else
        let q := (Zpos m / 2 ^ (- e))%Z in
        let up := if (Zpos m mod 2 ^ (- e) =? 0)%Z then q else (q + 1)%Z in
        match (if s then q else up) with
        | Zpos p => SF2Prim (S754_finite s p 0)
        | _ => if s then neg_zero else zero
        end
  | _ => x
  end.

(** [a % b]: the exact remainder of the truncated division, with the sign
    of the dividend; NaN for an infinite dividend or a zero divisor. *)
Definition rem (a b : number) : number :=
  match Prim2SF a, Prim2SF b with
  | S754_nan, _ | _, S754_nan => nan
  | S754_infinity _, _ => nan
  | _, S754_zero _ => nan
  | _, S754_infinity _ => a
  | S754_zero _, _ => a
  | S754_finite sa ma ea, S754_finite _ mb eb =>
      let e := Z.min ea eb in
      let x := (Zpos ma * 2 ^ (ea - e))%Z in
      let y := (Zpos mb * 2 ^ (eb - e))%Z in
      match (x mod y)%Z with
      | Zpos r => SF2Prim (S754_finite sa r e)
      | _ => if sa then neg_zero else zero
      end
  end.

Definition MIN_VISUAL_FREQUENCY : number := 0.1.

Definition clamp (value min max : number) : number :=
  Math_min max (Math_max min value).

Definition normalizePhase (phaseRad : number) : number :=
  let tau := 2 * Math_PI in
  let wrapped := rem (rem (phaseRad + Math_PI) tau + tau) tau - Math_PI in
  if wrapped =? - Math_PI then Math_PI else wrapped.

Definition adaptiveSampleCount
    (maxFrequencyHz windowSeconds pixelWidth : number) : number :=
  let kSamplesPerCycleWindow := 220 in
  let byFrequency :=
    Math_ceil
      (kSamplesPerCycleWindow * Math_max maxFrequencyHz MIN_VISUAL_FREQUENCY
       * windowSeconds) in
  let byPixels := Math_ceil (pixelWidth * 1.6) in
  let minSamples := 320 in
  let maxSamples := 12000 in
  clamp (Math_max (Math_max minSamples byFrequency) byPixels)
    minSamples maxSamples.


End B64.

(** ** A [Float32Array] store on the real-number model

    Rounding to the nearest number with a significand of 24 bits, the
    precision of a [Float32Array] element; overflow and underflow are not
    modelled. *)

Module Float32.
Import JS.

Definition exponent (x : number) : Z := Zfloor (ln (Rabs x) / ln 2).

Definition quantum (x : number) : number := powerRZ 2 (exponent x - 23).

Definition fround (x : number) : number :=
  if Req_dec_T x 0 then 0
  else IZR (Zfloor (x / quantum x + 1 / 2)) * quantum x.

End Float32.

(** * Properties *)

(** ** Numeric facts about the primitives *)

Section NumericFacts.
Import JS Signal.

Lemma Math_max_IZR (a b : Z) : Math_max (IZR a) (IZR b) = IZR (Z.max a b).
Proof.
  unfold Math_max.
  destruct (Z.max_spec a b) as [[Hab ->] | [Hab ->]].
  - apply Rmax_right, IZR_le. lia.
  - apply Rmax_left, IZR_le. lia.
Qed.

Lemma Math_min_IZR (a b : Z) : Math_min (IZR a) (IZR b) = IZR (Z.min a b).
Proof.
  unfold Math_min.
  destruct (Z.min_spec a b) as [[Hab ->] | [Hab ->]].
  - apply Rmin_left, IZR_le. lia.
  - apply Rmin_right, IZR_le. lia.
Qed.

Lemma Math_ceil_IZR (z : Z) : Math_ceil (IZR z) = IZR z.
Proof.
  unfold Math_ceil. f_equal. apply Zceil_eq. lra.
Qed.

Lemma clamp_bounds (value lo hi : number) :
  lo <= hi -> lo <= clamp value lo hi <= hi.
Proof.
  intros Hle. unfold clamp, Math_min, Math_max, Rmin, Rmax.
  repeat destruct Rle_dec; lra.
Qed.

Lemma clamp_inside (value lo hi : number) :
  lo <= value <= hi -> clamp value lo hi = value.
Proof.
  intros Hin. unfold clamp, Math_min, Math_max, Rmin, Rmax.
  repeat destruct Rle_dec; lra.
Qed.

(** The sample count is an integer, and within the two bounds. *)
Lemma adaptiveSampleCount_IZR (f w p : number) :
  adaptiveSampleCount f w p
  = IZR (Z.min 12000
           (Z.max 320
              (Z.max
                 (Z.max 320
                    (Zceil (220 * Math_max f MIN_VISUAL_FREQUENCY * w)))
                 (Zceil (p * 1.6))))).
Proof.
  unfold adaptiveSampleCount, clamp, Math_max3, Math_ceil.
  fold (Math_max 320
          (IZR (Zceil (220 * Math_max f MIN_VISUAL_FREQUENCY * w)))).
  rewrite Math_max_IZR.
  match goal with
  | |- context [Rmax (IZR ?a) (IZR ?b)] =>
      change (Rmax (IZR a) (IZR b)) with (Math_max (IZR a) (IZR b))
  end.
  now rewrite !Math_max_IZR, Math_min_IZR.
Qed.

Lemma adaptiveSampleCount_int (f w p : number) :
  exists n : Z,
    adaptiveSampleCount f w p = IZR n /\ (320 <= n <= 12000)%Z.
Proof.
  eexists. split; [apply adaptiveSampleCount_IZR | lia].
Qed.

End NumericFacts.

(** ** Adaptive sampler *)

Section AdaptiveSampler.
Import JS Signal.

(** C2: [adaptiveSampleCount(20, 10, 800)] is 12000, the frequency-driven
    candidate [ceil(220*20*10) = 44000] being above [maxSamples], and
    [adaptiveSampleCount(0.1, 1, 50)] is 320, both candidates (22 and 80)
    being below [minSamples]. *)
Theorem adaptiveSampleCount_examples :
  Math_ceil (220 * Math_max 20 MIN_VISUAL_FREQUENCY * 10) = 44000 /\
  12000 < Math_ceil (220 * Math_max 20 MIN_VISUAL_FREQUENCY * 10) /\
  adaptiveSampleCount 20 10 800 = 12000 /\
  Math_ceil (220 * Math_max 0.1 MIN_VISUAL_FREQUENCY * 1) < 320 /\
  Math_ceil (50 * 1.6) < 320 /\
  adaptiveSampleCount 0.1 1 50 = 320.
Proof.
  assert (Hm20 : Math_max 20 MIN_VISUAL_FREQUENCY = 20).
  { apply Rmax_left. unfold MIN_VISUAL_FREQUENCY. lra. }
  assert (Hm01 : Math_max 0.1 MIN_VISUAL_FREQUENCY = 0.1).
  { apply Rmax_left. unfold MIN_VISUAL_FREQUENCY. lra. }
  assert (Hf20 : Zceil (220 * 20 * 10) = 44000%Z) by (apply Zceil_eq; lra).
  assert (Hp800 : Zceil (800 * 1.6) = 1280%Z) by (apply Zceil_eq; lra).
  assert (Hf01 : Zceil (220 * 0.1 * 1) = 22%Z) by (apply Zceil_eq; lra).
  assert (Hp50 : Zceil (50 * 1.6) = 80%Z) by (apply Zceil_eq; lra).
  unfold Math_ceil. rewrite Hm20, Hm01, Hf20, Hf01, Hp50.
  repeat split; try lra.
  - rewrite adaptiveSampleCount_IZR, Hm20, Hf20, Hp800. reflexivity.
  - rewrite adaptiveSampleCount_IZR, Hm01, Hf01, Hp50. reflexivity.
Qed.


(** C9: with a second signal, showing only the sum and showing only the
    difference give the same bound, [max(1, A1, A2, A1+A2)]. *)
Theorem maxDisplayedAmplitude_sum_diff_same (signal1 signal2 : SignalParams) :
  maxDisplayedAmplitude signal1 (Some signal2) true false
    = maxDisplayedAmplitude signal1 (Some signal2) false true /\
  maxDisplayedAmplitude signal1 (Some signal2) false true
    = Rmax (Rmax (Rmax 1 (amplitude signal1)) (amplitude signal2))
           (amplitude signal1 + amplitude signal2).
Proof. split; reflexivity. Qed.

End AdaptiveSampler.

(** ** Signal model: period and phase normalisation *)

Section Period.
Import JS Signal.

(** Below the guard the product is [f / 1e-6], not 1. *)
Lemma periodFromFrequency_guarded (f : number) :
  f <= 1e-6 -> periodFromFrequency f * f = f / 1e-6.
Proof.
  intros Hf. unfold periodFromFrequency, Math_max.
  rewrite Rmax_right by exact Hf. lra.
Qed.

(** C5, as stated, fails under the guard: at [f = 5e-7 > 0] the product
    [periodFromFrequency(f) * f] is 1/2, far from 1. *)
Lemma periodFromFrequency_below_guard :
  0 < 5e-7 /\
  periodFromFrequency 5e-7 * 5e-7 = 1 / 2 /\
  1 / 4 < Rabs (periodFromFrequency 5e-7 * 5e-7 - 1).
Proof.
  assert (H : periodFromFrequency 5e-7 * 5e-7 = 1 / 2).
  { rewrite periodFromFrequency_guarded; lra. }
  rewrite H. repeat split; try lra.
  rewrite Rabs_left; lra.
Qed.

(** C5, amended: for every [f >= 1e-6], [periodFromFrequency(f) * f = 1]. *)
Theorem periodFromFrequency_inverse (f : number) :
  1e-6 <= f -> periodFromFrequency f * f = 1.
Proof.
  intros Hf. unfold periodFromFrequency, Math_max.
  rewrite Rmax_left by exact Hf. field. lra.
Qed.

Lemma periodFromFrequency_inverse_witness :
  1e-6 <= 20 /\ periodFromFrequency 20 * 20 = 1.
Proof.
  split; [lra | apply (periodFromFrequency_inverse 20); lra].
Defined.

End Period.

Section PhaseWrap.
Import JS Signal.

Variable b : number.
Hypothesis b_pos : 0 < b.

Lemma rem_decomp (a : number) : exists k : Z, rem a b = a - b * IZR k.
Proof. now exists (truncZ (a / b)). Qed.

Lemma rem_range_nonneg (a : number) : 0 <= a -> 0 <= rem a b < b.
Proof.
  intros Ha. unfold rem, truncZ.
  assert (Hq : a / b * b = a) by (field; lra).
  assert (Hq0 : 0 <= a / b).
  { apply Rmult_le_reg_r with b; [exact b_pos | lra]. }
  destruct (Rle_dec 0 (a / b)) as [_ | Hn]; [| contradiction].
  pose proof (Zfloor_bound (a / b)) as [Hlo Hhi].
  set (q := a / b) in *. set (F := IZR (Zfloor q)) in *.
  replace (a - b * F) with (b * (q - F)) by lra.
  split; nra.
Qed.

Lemma rem_range_neg (a : number) : a < 0 -> - b < rem a b <= 0.
Proof.
  intros Ha. unfold rem, truncZ.
  assert (Hq : a / b * b = a) by (field; lra).
  assert (Hq0 : a / b < 0).
  { apply Rmult_lt_reg_r with b; [exact b_pos | lra]. }
  destruct (Rle_dec 0 (a / b)) as [Hn | _]; [lra |].
  pose proof (Zceil_bound (a / b)) as [Hlo Hhi].
  set (q := a / b) in *. set (C := IZR (Zceil q)) in *.
  replace (a - b * C) with (b * (q - C)) by lra.
  split; nra.
Qed.

Lemma rem_range (a : number) : - b < rem a b < b.
Proof.
  destruct (Rle_lt_dec 0 a) as [Ha | Ha].
  - pose proof (rem_range_nonneg a Ha). lra.
  - pose proof (rem_range_neg a Ha). lra.
Qed.

(** The double remainder of [normalizePhase]: the representative of [a]
    modulo [b] in [[0, b)]. *)
Local Abbreviation wrap a := (rem (rem a b + b) b).

Lemma wrap_range (a : number) : 0 <= wrap a < b.
Proof.
  apply rem_range_nonneg.
  pose proof (rem_range a). lra.
Qed.

Lemma wrap_decomp (a : number) : exists k : Z, wrap a = a - b * IZR k.
Proof.
  destruct (rem_decomp a) as [k1 H1].
  destruct (rem_decomp (rem a b + b)) as [k2 H2].
  exists (k1 + k2 - 1)%Z.
  rewrite H2, H1, minus_IZR, plus_IZR. lra.
Qed.

Lemma residue_unique (x y : number) (k : Z) :
  0 <= x < b -> 0 <= y < b -> x = y + b * IZR k -> x = y.
Proof.
  intros Hx Hy Heq.
  destruct (Z_lt_le_dec k 0) as [Hneg | Hnn].
  - assert (IZR k <= -1) by (apply IZR_le; lia). nra.
  - destruct (Z_le_lt_eq_dec 0 k Hnn) as [Hpos | <-]; [| lra].
    assert (1 <= IZR k) by (apply IZR_le; lia). nra.
Qed.

Lemma wrap_unique (a r : number) (k : Z) :
  0 <= r < b -> r = a - b * IZR k -> wrap a = r.
Proof.
  intros Hr Heq.
  destruct (wrap_decomp a) as [k' Hk'].
  apply residue_unique with (k := (k - k')%Z);
    [apply wrap_range | exact Hr |].
  rewrite minus_IZR. lra.
Qed.

Lemma wrap_period (a : number) : wrap (a + b) = wrap a.
Proof.
  destruct (wrap_decomp a) as [k Hk].
  apply wrap_unique with (k := (k + 1)%Z); [apply wrap_range |].
  rewrite plus_IZR. lra.
Qed.

End PhaseWrap.

Section NormalizePhase.
Import JS Signal.

Local Abbreviation tau := (2 * Math_PI).

Lemma tau_pos : 0 < tau.
Proof. unfold Math_PI. pose proof PI_RGT_0. lra. Qed.

(** [normalizePhase] in terms of the residue of [phi + PI] modulo [tau]. *)
Lemma normalizePhase_residue (phi r : number) (k : Z) :
  0 <= r < tau -> r = phi + Math_PI - tau * IZR k ->
  normalizePhase phi = if Req_dec_T r 0 then Math_PI else r - Math_PI.
Proof.
  intros Hr Hk. unfold normalizePhase.
  rewrite (wrap_unique tau tau_pos (phi + Math_PI) r k Hr Hk).
  destruct (Req_dec_T (r - Math_PI) (- Math_PI)) as [He | Hne],
           (Req_dec_T r 0) as [Hz | Hnz]; try reflexivity; lra.
Qed.


Lemma normalizePhase_fixed (phi : number) :
  - Math_PI < phi <= Math_PI -> normalizePhase phi = phi.
Proof.
  intros [Hlo Hhi]. pose proof tau_pos as Ht.
  destruct (Req_dec_T phi Math_PI) as [-> | Hne].
  - rewrite (normalizePhase_residue Math_PI 0 1); [| lra | lra].
    destruct Req_dec_T; [reflexivity | lra].
  - rewrite (normalizePhase_residue phi (phi + Math_PI) 0); [| lra | lra].
    destruct Req_dec_T; lra.
Qed.



End NormalizePhase.

(** ** Audio envelope *)

Section AudioEnvelope.
Import JS Signal Audio.

(** The parameter update reaches the nodes only when the hook is started,
    enabled, and holds a context and both nodes. *)
Local Abbreviation live enabled h :=
  (isStarted h && enabled && contextRef h
   && bool_decide (is_Some (oscillatorRef h))
   && bool_decide (is_Some (gainRef h))).

Lemma safeGain_bounds (amplitude : number) :
  0 <= clamp (amplitude / MAX_AMPLITUDE) 0 1 * MAX_GAIN <= 0.2.
Proof.
  pose proof (clamp_bounds (amplitude / MAX_AMPLITUDE) 0 1).
  unfold MAX_GAIN. lra.
Qed.

Lemma safeFrequency_bounds (frequency : number) :
  20 <= clamp frequency MIN_AUDIO_FREQUENCY MAX_AUDIO_FREQUENCY <= 2000.
Proof.
  apply clamp_bounds. unfold MIN_AUDIO_FREQUENCY, MAX_AUDIO_FREQUENCY. lra.
Qed.

Lemma start_available (now amplitude frequency : number) (h : Hook) :
  appliedFrequency (start Available now amplitude frequency h)
    = Some (clamp frequency MIN_AUDIO_FREQUENCY MAX_AUDIO_FREQUENCY) /\
  targetGain (start Available now amplitude frequency h)
    = Some (clamp (amplitude / MAX_AMPLITUDE) 0 1 * MAX_GAIN).
Proof. unfold start. destruct (contextRef h); split; reflexivity. Qed.

Lemma updateEffect_targets (enabled : bool)
    (now amplitude frequency : number) (h : Hook) :
  appliedFrequency (updateEffect enabled now amplitude frequency h)
    = (if live enabled h
       then Some (clamp frequency MIN_AUDIO_FREQUENCY MAX_AUDIO_FREQUENCY)
       else appliedFrequency h) /\
  targetGain (updateEffect enabled now amplitude frequency h)
    = (if live enabled h
       then Some (clamp (amplitude / MAX_AMPLITUDE) 0 1 * MAX_GAIN)
       else targetGain h).
Proof.
  unfold updateEffect.
  destruct (isStarted h), enabled, (contextRef h),
           (oscillatorRef h) as [osc |], (gainRef h) as [g |];
    split; reflexivity.
Qed.

Local Abbreviation safe h :=
  (within 20 2000 (appliedFrequency h) /\ within 0 0.2 (targetGain h)).

Lemma cleanupNodes_safe (h : Hook) : safe h -> safe (cleanupNodes h).
Proof.
  unfold cleanupNodes. destruct (contextRef h); simpl; [split; exact I | auto].
Qed.

Lemma stop_safe (h : Hook) : safe h -> safe (stop h).
Proof.
  intros Hs. apply cleanupNodes_safe in Hs. exact Hs.
Qed.

Lemma start_safe (platform : Platform) (now amplitude frequency : number)
    (h : Hook) :
  safe h -> safe (start platform now amplitude frequency h).
Proof.
  intros Hs.
  pose proof (safeGain_bounds amplitude) as Hg.
  pose proof (safeFrequency_bounds frequency) as Hf.
  unfold start.
  destruct platform, (contextRef h) eqn:Hc; simpl;
    try (split; [exact Hf | exact Hg]);
    try (split; exact I);
    exact Hs.
Qed.

Lemma updateEffect_safe (enabled : bool) (now amplitude frequency : number)
    (h : Hook) :
  safe h -> safe (updateEffect enabled now amplitude frequency h).
Proof.
  intros Hs.
  destruct (updateEffect_targets enabled now amplitude frequency h)
    as [-> ->].
  destruct (live enabled h); [| exact Hs].
  split; [apply safeFrequency_bounds | apply safeGain_bounds].
Qed.

Lemma step_safe (h : Hook) (a : Action) : safe h -> safe (step h a).
Proof.
  intros Hs. destruct a as [platform now amp freq | | enabled now amp freq];
    simpl.
  - now apply start_safe.
  - now apply stop_safe.
  - apply updateEffect_safe. unfold disableEffect.
    destruct (negb enabled && isStarted h); [now apply stop_safe | exact Hs].
Qed.

Lemma run_safe (actions : list Action) (h : Hook) :
  safe h -> safe (run actions h).
Proof.
  unfold run. revert h.
  induction actions as [| a actions IH]; intros h Hs; simpl.
  - exact Hs.
  - apply IH, step_safe, Hs.
Qed.

(** C4: the target gain set by [start()] and by every parameter update
    that reaches the nodes is [clamp(amplitude / 5, 0, 1) * 0.2]; it is
    0.2 at amplitude 5 and never above 0.2, whatever the run of the
    hook. *)
Theorem audio_target_gain (enabled : bool) (now amplitude frequency : number)
    (h : Hook) (actions : list Action) :
  targetGain (start Available now amplitude frequency h)
    = Some (clamp (amplitude / 5) 0 1 * 0.2) /\
  targetGain (updateEffect enabled now amplitude frequency h)
    = (if live enabled h then Some (clamp (amplitude / 5) 0 1 * 0.2)
       else targetGain h) /\
  targetGain (start Available now 5 frequency h) = Some 0.2 /\
  clamp (amplitude / 5) 0 1 * 0.2 <= 0.2 /\
  within 0 0.2 (targetGain (run actions initial)).
Proof.
  split; [apply start_available |].
  split; [apply updateEffect_targets |].
  split; [| split].
  - destruct (start_available now 5 frequency h) as [_ ->].
    f_equal. unfold MAX_AMPLITUDE, MAX_GAIN.
    rewrite clamp_inside; lra.
  - apply (safeGain_bounds amplitude).
  - apply run_safe. split; exact I.
Qed.

(** C7: the frequency applied to the oscillator by [start()] and by every
    parameter update that reaches it is the requested one clamped to
    [[20, 2000]] Hz, whatever the run of the hook. *)
Theorem audio_frequency_clamped (enabled : bool)
    (now amplitude frequency : number) (h : Hook) (actions : list Action) :
  appliedFrequency (start Available now amplitude frequency h)
    = Some (clamp frequency 20 2000) /\
  appliedFrequency (updateEffect enabled now amplitude frequency h)
    = (if live enabled h then Some (clamp frequency 20 2000)
       else appliedFrequency h) /\
  20 <= clamp frequency 20 2000 <= 2000 /\
  within 20 2000 (appliedFrequency (run actions initial)).
Proof.
  split; [apply start_available |].
  split; [apply updateEffect_targets |].
  split; [apply safeFrequency_bounds |].
  apply run_safe. split; exact I.
Qed.

End AudioEnvelope.

(** ** Simulation clock *)

Section Clock.
Import JS Signal App.

Lemma last_cons_default (ts : list number) (t a : number) :
  List.last (t :: ts) a = List.last ts t.
Proof.
  revert t a. induction ts as [| u us IH]; intros t a; [reflexivity |].
  change (List.last (t :: u :: us) a) with (List.last (u :: us) a).
  now rewrite (IH u a), (IH u t).
Qed.

(** While playing with a stored timestamp [a], a run of frames advances
    the simulation time by the time from [a] to the last frame. *)
Lemma frames_playing (ts : list number) :
  forall (s : State) (a : number),
    isPlaying s = true -> lastRafMsRef s = Some a ->
    tNow s = simTimeRef s ->
    isPlaying (frames ts s) = true /\
    lastRafMsRef (frames ts s) = Some (List.last ts a) /\
    simTimeRef (frames ts s) = simTimeRef s + (List.last ts a - a) / 1000 /\
    tNow (frames ts s) = simTimeRef (frames ts s).
Proof.
  induction ts as [| t ts IH]; intros s a Hplay Hlast Hnow.
  - simpl. repeat split; auto. lra.
  - change (frames (t :: ts) s) with (frames ts (frame t s)).
    rewrite last_cons_default.
    assert (Hf : frame t s = tick t s) by (unfold frame; now rewrite Hplay).
    destruct (IH (frame t s) t) as (H1 & H2 & H3 & H4).
    + rewrite Hf. exact Hplay.
    + rewrite Hf. reflexivity.
    + rewrite Hf. reflexivity.
    + repeat split; auto.
      rewrite H3, Hf. unfold tick. rewrite Hlast. simpl. lra.
Qed.

(** C6: reset, from the playing or the paused state, sets [t_now] to 0,
    drops the stored timestamp and forces Playing; the first frame
    afterwards leaves [t_now] at 0 and only stores its timestamp, and
    from the second frame on [t_now] is the time elapsed since the
    first. *)
Theorem reset_then_frames (s : State) (t1 t2 : number) (rest : list number) :
  tNow (handleReset s) = 0 /\
  simTimeRef (handleReset s) = 0 /\
  lastRafMsRef (handleReset s) = None /\
  isPlaying (handleReset s) = true /\
  tNow (frame t1 (handleReset s)) = 0 /\
  lastRafMsRef (frame t1 (handleReset s)) = Some t1 /\
  tNow (frame t2 (frame t1 (handleReset s))) = (t2 - t1) / 1000 /\
  tNow (frames (t1 :: rest) (handleReset s)) = (List.last rest t1 - t1) / 1000.
Proof.
  repeat split; try reflexivity.
  - unfold handleReset, playingEffect, frame, tick. simpl. lra.
  - change (frames (t1 :: rest) (handleReset s))
      with (frames rest (frame t1 (handleReset s))).
    destruct (frames_playing rest (frame t1 (handleReset s)) t1)
      as (_ & _ & H3 & H4); try reflexivity.
    rewrite H4, H3. simpl. lra.
Qed.

End Clock.

(** ** Synchronisation of the waveform and the phasor *)

Section Synchronisation.
Import JS Signal TimePlot.

Variable fround : number -> number.

Lemma ensureCapacity_length (buffer : Float32Array) (n : Z) :
  (0 <= n)%Z ->
  (Z.to_nat n <= length (ensureCapacity buffer (IZR n)))%nat.
Proof.
  intros Hn. unfold ensureCapacity.
  destruct Rge_dec as [Hge | Hlt].
  - apply INR_le. rewrite (INR_IZR_INZ (Z.to_nat n)), Z2Nat.id by exact Hn.
    lra.
  - unfold new_Float32Array, truncZ. rewrite length_replicate.
    destruct Rle_dec as [_ | Hneg].
    + now rewrite ZfloorZ.
    + exfalso. apply Hneg. now apply IZR_le.
Qed.


Lemma iterations_IZR (n : Z) : iterations (IZR n) = seq 0 (Z.to_nat n).
Proof.
  unfold iterations. f_equal. f_equal. apply Zceil_eq. lra.
Qed.

Section Loop.
Variable props : TimePlotCanvasProps.
Variables tStart invSample : number.

Local Abbreviation body := (sweepBody fround props tStart invSample).
Local Abbreviation timeAt i := (tStart + INR i * invSample * windowSec props).



End Loop.

Lemma plot_area (viewport : Viewport) :
  viewport = initialViewport \/
  (exists w h d, viewport = resize w h d) ->
  16 < width viewport - PADDING_left - PADDING_right /\
  16 < height viewport - PADDING_top - PADDING_bottom.
Proof.
  unfold PADDING_left, PADDING_right, PADDING_top, PADDING_bottom.
  intros [-> | (w & h & d & ->)]; simpl; [lra |].
  pose proof (Rmax_l 280 (Math_floor w)).
  pose proof (Rmax_l 220 (Math_floor h)).
  unfold Math_max. lra.
Qed.



End Synchronisation.

Section SynchronisationExample.
Import JS Signal TimePlot.




(** The first render at [t_now = 0.25]: default signals and window, the
    initial viewport, empty buffers, and a store that rounds to 24 bits. *)
Local Abbreviation snapshot :=
  {| tNow := 0.25; windowSec := DEFAULT_WINDOW_SECONDS;
     signal1 := DEFAULT_SIGNAL_1; signal2 := DEFAULT_SIGNAL_2;
     compareMode := false; showSum := true; showDiff := false |}.


End SynchronisationExample.

(** ** The same expressions in binary64 *)

Section Binary64.
Import PrimFloat.
Local Open Scope float_scope.

#[local] Set Warnings "-inexact-float".




End Binary64.

(** * Further properties of the code *)

(** An equation between [number]s, read as one between reals. *)
Ltac as_real :=
  match goal with |- @eq _ ?a ?b => change (@eq R a b) end.

(** Case analysis on a decision the goal branches on. *)
Ltac decide_goal :=
  match goal with |- context [decide ?P] => destruct (decide P) end.

(** ** Signal model *)

Section SignalModel.
Import JS Signal.

Local Abbreviation tau := (2 * Math_PI).

(** [clamp] never exceeds [max], also when the bounds are inverted, never
    goes below the smaller bound, and clamping twice changes nothing. *)
Theorem clamp_upper_idempotent (value lo hi : number) :
  clamp value lo hi <= hi /\
  Rmin lo hi <= clamp value lo hi /\
  clamp (clamp value lo hi) lo hi = clamp value lo hi.
Proof.
  unfold clamp, Math_min, Math_max, Rmin, Rmax.
  repeat destruct Rle_dec; repeat split; lra.
Qed.

(** With inverted bounds the upper one wins. *)
Theorem clamp_inverted (value lo hi : number) :
  hi <= lo -> clamp value lo hi = hi.
Proof.
  intros Hinv. unfold clamp, Math_min, Math_max, Rmin, Rmax.
  repeat destruct Rle_dec; lra.
Qed.

Lemma clamp_inverted_witness : 3 <= 7 /\ clamp 100 7 3 = 3.
Proof.
  split; [lra | apply (clamp_inverted 100 7 3); lra].
Defined.

(** The signal never leaves [-|A|, |A|]. *)
Theorem signalAt_bounded (tSec : number) (signal : SignalParams) :
  Rabs (signalAt tSec signal) <= Rabs (amplitude signal).
Proof.
  unfold signalAt, Math_sin. rewrite Rabs_mult.
  pose proof (SIN_bound (thetaAt tSec signal)) as [Hlo Hhi].
  assert (Hs : Rabs (sin (thetaAt tSec signal)) <= 1)
    by (apply Rabs_le; lra).
  pose proof (Rabs_pos (amplitude signal)). nra.
Qed.






(** The guard keeps the period finite and positive for every input. *)
Theorem periodFromFrequency_bounded (frequencyHz : number) :
  0 < periodFromFrequency frequencyHz <= 1 / 1e-6.
Proof.
  unfold periodFromFrequency, Math_max.
  pose proof (Rmax_r frequencyHz 1e-6) as Hm.
  set (m := Rmax frequencyHz 1e-6) in *.
  assert (Hpos : 0 < m) by lra.
  split.
  - apply Rdiv_lt_0_compat; lra.
  - unfold Rdiv. rewrite !Rmult_1_l.
    apply Rinv_le_contravar; lra.
Qed.

(** Two phases that differ by whole turns normalise to the same value. *)
Lemma normalizePhase_congr (x y : number) (k : Z) :
  x = y + tau * IZR k -> normalizePhase x = normalizePhase y.
Proof.
  intros Hxy. pose proof tau_pos as Ht.
  destruct (wrap_decomp tau (y + Math_PI)) as [j Hj].
  pose proof (wrap_range tau tau_pos (y + Math_PI)) as Hr.
  rewrite (normalizePhase_residue y _ j Hr Hj).
  apply (normalizePhase_residue x _ (j + k)); [exact Hr |].
  rewrite plus_IZR. lra.
Qed.





End SignalModel.

(** ** Adaptive sampler and amplitude bound *)

Section SamplerBounds.
Import JS Signal.





Lemma sin_abs_le_1 (x : R) : Rabs (sin x) <= 1.
Proof. pose proof (SIN_bound x). apply Rabs_le. lra. Qed.

Lemma signalAt_abs_le (tSec : number) (signal : SignalParams) :
  0 <= amplitude signal -> Rabs (signalAt tSec signal) <= amplitude signal.
Proof.
  intros Ha. unfold signalAt, Math_sin. rewrite Rabs_mult.
  rewrite (Rabs_pos_eq _ Ha).
  pose proof (sin_abs_le_1 (thetaAt tSec signal)). nra.
Qed.

Lemma maxDisplayedAmplitude_lower (signal1 : SignalParams)
    (signal2 : option SignalParams) (showSum showDiff : bool) :
  1 <= maxDisplayedAmplitude signal1 signal2 showSum showDiff /\
  amplitude signal1 <= maxDisplayedAmplitude signal1 signal2 showSum showDiff.
Proof.
  unfold maxDisplayedAmplitude, Math_max, Rmax.
  destruct signal2 as [s2 |], showSum, showDiff;
    repeat destruct Rle_dec; split; lra.
Qed.

Lemma maxDisplayedAmplitude_second (signal1 signal2 : SignalParams)
    (showSum showDiff : bool) :
  amplitude signal2
    <= maxDisplayedAmplitude signal1 (Some signal2) showSum showDiff /\
  (if showSum || showDiff
   then amplitude signal1 + amplitude signal2
          <= maxDisplayedAmplitude signal1 (Some signal2) showSum showDiff
   else True).
Proof.
  unfold maxDisplayedAmplitude, Math_max, Rmax.
  destruct showSum, showDiff; simpl;
    repeat destruct Rle_dec; split; solve [lra | exact I].
Qed.

Lemma series_bounded
    (tSec : number) (signal1 signal2 : SignalParams)
    (other : option SignalParams) (showSum showDiff : bool) :
  0 <= amplitude signal1 -> 0 <= amplitude signal2 ->
  1 <= maxDisplayedAmplitude signal1 other showSum showDiff /\
  Rabs (signalAt tSec signal1)
    <= maxDisplayedAmplitude signal1 other showSum showDiff /\
  Rabs (signalAt tSec signal2)
    <= maxDisplayedAmplitude signal1 (Some signal2) showSum showDiff /\
  Rabs (signalAt tSec signal1 + signalAt tSec signal2)
    <= maxDisplayedAmplitude signal1 (Some signal2) true showDiff /\
  Rabs (signalAt tSec signal1 - signalAt tSec signal2)
    <= maxDisplayedAmplitude signal1 (Some signal2) showSum true.
Proof.
  intros H1 H2.
  pose proof (signalAt_abs_le tSec signal1 H1) as Hy1.
  pose proof (signalAt_abs_le tSec signal2 H2) as Hy2.
  pose proof (maxDisplayedAmplitude_lower signal1 other showSum showDiff)
    as [Hone Hfirst].
  pose proof (maxDisplayedAmplitude_second signal1 signal2 showSum showDiff)
    as [Hsecond _].
  pose proof (maxDisplayedAmplitude_second signal1 signal2 true showDiff)
    as [_ Hsum].
  pose proof (maxDisplayedAmplitude_second signal1 signal2 showSum true)
    as [_ Hdiff].
  rewrite orb_true_r in Hdiff. cbn [orb] in Hsum.
  pose proof (Rabs_triang (signalAt tSec signal1) (signalAt tSec signal2)).
  pose proof (Rabs_triang (signalAt tSec signal1) (- signalAt tSec signal2))
    as Htri.
  rewrite Rabs_Ropp in Htri.
  repeat split; try lra.
  unfold Rminus. lra.
Qed.

(** With amplitudes that are not negative, [maxDisplayedAmplitude] is at
    least 1 and bounds every series that is drawn: signal 1 always, signal
    2 when it is given, their sum when [showSum], their difference when
    [showDiff]. *)
Theorem maxDisplayedAmplitude_bounds_series
    (tSec : number) (signal1 signal2 : SignalParams)
    (other : option SignalParams) (showSum showDiff : bool) :
  0 <= amplitude signal1 -> 0 <= amplitude signal2 ->
  1 <= maxDisplayedAmplitude signal1 other showSum showDiff /\
  Rabs (signalAt tSec signal1)
    <= maxDisplayedAmplitude signal1 other showSum showDiff /\
  Rabs (signalAt tSec signal2)
    <= maxDisplayedAmplitude signal1 (Some signal2) showSum showDiff /\
  Rabs (signalAt tSec signal1 + signalAt tSec signal2)
    <= maxDisplayedAmplitude signal1 (Some signal2) true showDiff /\
  Rabs (signalAt tSec signal1 - signalAt tSec signal2)
    <= maxDisplayedAmplitude signal1 (Some signal2) showSum true.
Proof. apply series_bounded. Qed.

Lemma maxDisplayedAmplitude_bounds_series_witness :
  0 <= amplitude DEFAULT_SIGNAL_1 /\ 0 <= amplitude DEFAULT_SIGNAL_2 /\
  Rabs (signalAt 0.25 DEFAULT_SIGNAL_1 - signalAt 0.25 DEFAULT_SIGNAL_2)
    <= maxDisplayedAmplitude DEFAULT_SIGNAL_1 (Some DEFAULT_SIGNAL_2)
         false true.
Proof.
  assert (H1 : 0 <= amplitude DEFAULT_SIGNAL_1) by (simpl; lra).
  assert (H2 : 0 <= amplitude DEFAULT_SIGNAL_2) by (simpl; lra).
  split; [exact H1 | split; [exact H2 |]].
  apply (maxDisplayedAmplitude_bounds_series 0.25 DEFAULT_SIGNAL_1
           DEFAULT_SIGNAL_2 None false true H1 H2).
Defined.

End SamplerBounds.

(** ** Units and the phase slider *)

Section UnitsAndSlider.
Import JS Signal App Units Controls.


(** A slider value is within [phaseBounds(unit)] exactly when the phase it
    stands for is within [[-PI, PI]]; both ends included, so the slider can
    store [-PI]. *)
Theorem phaseBounds_match (signal : SignalParams) (value : number)
    (unit : PhaseUnit) :
  (min (phaseBounds unit) <= value <= max (phaseBounds unit) <->
   - Math_PI <= phaseRad (phaseEdit signal value unit) <= Math_PI) /\
  phaseRad (phaseEdit signal (min (phaseBounds unit)) unit) = - Math_PI.
Proof.
  pose proof PI_RGT_0 as Hpi. unfold Math_PI.
  destruct unit; simpl; unfold degToRad, Math_PI.
  - split; [tauto | reflexivity].
  - split; [| as_real; field].
    split; intros [Hlo Hhi]; split; nra.
Qed.

End UnitsAndSlider.

(** ** Sample buffers *)

Section SampleBuffers.
Import JS Signal TimePlot.

Lemma INR_to_nat (n : Z) : (0 <= n)%Z -> INR (Z.to_nat n) = IZR n.
Proof. intros Hn. now rewrite INR_IZR_INZ, Z2Nat.id. Qed.

Lemma ensureCapacity_grows (buffer : Float32Array) (target : number) :
  (length buffer <= length (ensureCapacity buffer target))%nat.
Proof.
  unfold ensureCapacity. destruct Rge_dec as [Hge | Hlt]; [lia |].
  unfold new_Float32Array, truncZ. rewrite length_replicate.
  pose proof (pos_INR (length buffer)) as Hpos.
  destruct Rle_dec as [_ | Hneg]; [| lra].
  assert (Hz : (Z.of_nat (length buffer) <= Zfloor target)%Z).
  { apply Zfloor_lub. rewrite <- INR_IZR_INZ. lra. }
  lia.
Qed.

(** The capacity of a buffer never shrinks, it fits the whole count asked
    for, and a later request that is not larger returns the same array. *)
Theorem ensureCapacity_reuse (buffer : Float32Array) (target : number)
    (n m : Z) :
  (m <= n)%Z ->
  (length buffer <= length (ensureCapacity buffer target))%nat /\
  (Z.to_nat n <= length (ensureCapacity buffer (IZR n)))%nat /\
  ensureCapacity (ensureCapacity buffer (IZR n)) (IZR m)
  = ensureCapacity buffer (IZR n).
Proof.
  intros Hmn. split; [apply ensureCapacity_grows | split].
  - destruct (Z_lt_le_dec n 0) as [Hneg | Hnn]; [lia |].
    now apply ensureCapacity_length.
  - set (b' := ensureCapacity buffer (IZR n)).
    unfold ensureCapacity at 1.
    destruct Rge_dec as [_ | Hlt]; [reflexivity |].
    exfalso. apply Hlt. apply Rle_ge.
    pose proof (pos_INR (length b')) as Hpos.
    destruct (Z_lt_le_dec n 0) as [Hneg | Hnn].
    + assert (IZR m <= 0) by (apply IZR_le; lia). lra.
    + pose proof (ensureCapacity_length buffer n Hnn) as Hlen.
      apply le_INR in Hlen. rewrite INR_to_nat in Hlen by exact Hnn.
      assert (IZR m <= IZR n) by (now apply IZR_le).
      fold b' in Hlen. lra.
Qed.

Lemma ensureCapacity_reuse_witness :
  (320 <= 12000)%Z /\
  ensureCapacity (ensureCapacity [] (IZR 12000)) (IZR 320)
  = ensureCapacity [] (IZR 12000).
Proof.
  assert (H : (320 <= 12000)%Z) by lia.
  split; [exact H | apply (ensureCapacity_reuse [] 0 12000 320 H)].
Defined.

(** Writing [g i] into the slots [0 .. n-1] of one array. *)
Lemma fill_length (g : nat -> number) (indices : list nat)
    (l : list number) :
  length (foldl (fun l i => <[i := g i]> l) l indices) = length l.
Proof.
  revert l. induction indices as [| i indices IH]; intros l; [reflexivity |].
  simpl. now rewrite IH, length_insert.
Qed.

Lemma fill_lookup (g : nat -> number) (n : nat) (l : list number) (i : nat) :
  foldl (fun l i => <[i := g i]> l) l (seq 0 n) !! i
  = if decide (i < n /\ i < length l)%nat then Some (g i) else l !! i.
Proof.
  induction n as [| n IH].
  - cbn [seq foldl]. decide_goal; [lia | reflexivity].
  - rewrite seq_S, foldl_app. cbn [foldl Nat.add].
    destruct (decide (i = n)) as [-> | Hne].
    + destruct (decide (n < length l)%nat) as [Hin | Hout].
      * rewrite list_lookup_insert_eq by (now rewrite fill_length).
        decide_goal; [reflexivity | lia].
      * rewrite list_insert_ge by (rewrite fill_length; lia).
        rewrite IH. repeat decide_goal; try reflexivity; lia.
    + rewrite list_lookup_insert_ne by (intros Heq; now apply Hne).
      rewrite IH. repeat decide_goal; try reflexivity; lia.
Qed.

End SampleBuffers.

Section SweepContents.
Import JS Signal TimePlot.

Variable fround : number -> number.

Lemma iterations_INR (n : nat) : iterations (INR n) = seq 0 n.
Proof.
  rewrite INR_IZR_INZ, iterations_IZR. now rewrite Nat2Z.id.
Qed.

(** The loop handles the five buffers independently of one another. *)
Lemma sweep_projections (props : TimePlotCanvasProps)
    (tStart invSample : number) (indices : list nat) (b : Buffers) :
  let timeAt i := tStart + INR i * invSample * windowSec props in
  let fill g l := foldl (fun l i => <[i := fround (g i)]> l) l indices in
  foldl (sweepBody fround props tStart invSample) b indices
  = {| timeBuffer := fill timeAt (timeBuffer b);
       y1Buffer := fill (fun i => signalAt (timeAt i) (signal1 props))
                     (y1Buffer b);
       y2Buffer := fill (fun i => signalAt (timeAt i) (signal2 props))
                     (y2Buffer b);
       sumBuffer := fill (fun i => signalAt (timeAt i) (signal1 props)
                                   + signalAt (timeAt i) (signal2 props))
                      (sumBuffer b);
       diffBuffer := fill (fun i => signalAt (timeAt i) (signal1 props)
                                    - signalAt (timeAt i) (signal2 props))
                       (diffBuffer b) |}.
Proof.
  cbv zeta. revert b.
  induction indices as [| i indices IH]; intros b; cbn [foldl].
  - now destruct b.
  - rewrite IH. reflexivity.
Qed.

(** After the sweep, slot [i] of each buffer holds, for [i] below the
    sample count, the value at time
    [tStart + i * (1 / (sampleCount - 1)) * windowSec] (the time, signal 1,
    signal 2, their sum and their difference, each rounded once by the
    store); a slot from the sample count on is left as it was. *)
Theorem sample_contents (props : TimePlotCanvasProps) (viewport : Viewport)
    (refs : Buffers) :
  viewport = initialViewport \/
  (exists w h d, viewport = resize w h d) ->
  exists (s : Sweep) (n : nat),
    sample fround props viewport refs = Some s /\
    sampleCount s = INR n /\ (320 <= Z.of_nat n <= 12000)%Z /\
    forall i : nat,
      let t := tNow props - windowSec props
               + INR i * (1 / (INR n - 1)) * windowSec props in
      let y1 := signalAt t (signal1 props) in
      let y2 := signalAt t (signal2 props) in
      let slot (buffer old : Float32Array) (value : number) :=
        buffer !! i
        = if decide (i < n)%nat then Some (fround value)
          else ensureCapacity old (INR n) !! i in
      slot (timeBuffer (buffers s)) (timeBuffer refs) t /\
      slot (y1Buffer (buffers s)) (y1Buffer refs) y1 /\
      slot (y2Buffer (buffers s)) (y2Buffer refs) y2 /\
      slot (sumBuffer (buffers s)) (sumBuffer refs) (y1 + y2) /\
      slot (diffBuffer (buffers s)) (diffBuffer refs) (y1 - y2).
Proof.
  intros Hvp. destruct (plot_area viewport Hvp) as [Hw Hh].
  unfold sample.
  destruct Rle_dec as [Hle | _]; [lra |].
  destruct Rle_dec as [Hle | _]; [lra |].
  match goal with
  | |- context [adaptiveSampleCount ?f ?w ?p] =>
      destruct (adaptiveSampleCount_int f w p) as (z & Hz & Hlo & Hhi);
      rewrite Hz
  end.
  rewrite <- (INR_to_nat z) by lia.
  set (n := Z.to_nat z).
  assert (Hn : (320 <= Z.of_nat n <= 12000)%Z) by (unfold n; lia).
  assert (Hn1 : 320 <= INR n).
  { rewrite INR_IZR_INZ. apply IZR_le. lia. }
  destruct Rgt_dec as [_ | Hngt]; [| lra].
  eexists. exists n. split; [reflexivity |].
  cbn [sampleCount buffers]. split; [reflexivity | split; [exact Hn |]].
  intros i. cbv zeta.
  rewrite iterations_INR, sweep_projections.
  cbn [timeBuffer y1Buffer y2Buffer sumBuffer diffBuffer].
  assert (Hlen : forall old,
             (n <= length (ensureCapacity old (INR n)))%nat).
  { intros old. unfold n. rewrite INR_to_nat by lia.
    apply ensureCapacity_length. lia. }
  repeat split;
    match goal with
    | |- foldl _ (ensureCapacity ?old _) _ !! _ = _ =>
        rewrite fill_lookup; pose proof (Hlen old);
        repeat decide_goal; try reflexivity; lia
    end.
Qed.

End SweepContents.

Section SweepContentsExample.
Import JS Signal TimePlot.

Lemma sample_contents_witness :
  (initialViewport = initialViewport \/
   (exists w h d, initialViewport = resize w h d)) /\
  exists (s : Sweep) (n : nat),
    sample (fun v => v)
      {| tNow := 3; windowSec := 2; signal1 := DEFAULT_SIGNAL_1;
         signal2 := DEFAULT_SIGNAL_2; compareMode := true;
         showSum := true; showDiff := false |}
      initialViewport emptyBuffers = Some s /\
    sampleCount s = INR n /\
    timeBuffer (buffers s) !! 0%nat
    = if decide (0 < n)%nat
      then Some (3 - 2 + INR 0 * (1 / (INR n - 1)) * 2)
      else ensureCapacity [] (INR n) !! 0%nat.
Proof.
  assert (Hvp : initialViewport = initialViewport \/
                (exists w h d, initialViewport = resize w h d))
    by (left; reflexivity).
  split; [exact Hvp |].
  destruct (sample_contents (fun v => v)
              {| tNow := 3; windowSec := 2; signal1 := DEFAULT_SIGNAL_1;
                 signal2 := DEFAULT_SIGNAL_2; compareMode := true;
                 showSum := true; showDiff := false |}
              initialViewport emptyBuffers Hvp)
    as (s & n & Hs & Hc & _ & Hslots).
  exists s, n. split; [exact Hs | split; [exact Hc |]].
  destruct (Hslots 0%nat) as [Ht _]. exact Ht.
Defined.

End SweepContentsExample.

(** ** Plot geometry *)

Section PlotGeometry.
Import JS Signal TimePlot.

Lemma toY_inside (yMax plotHeight value : number) :
  0 < yMax -> Rabs value <= yMax -> 0 <= plotHeight ->
  PADDING_top <= TimePlotView.toY yMax plotHeight value
    <= PADDING_top + plotHeight.
Proof.
  intros HM Hv HH. unfold TimePlotView.toY.
  pose proof (Rle_abs value) as Hhi.
  pose proof (Rle_abs (- value)) as Hlo. rewrite Rabs_Ropp in Hlo.
  set (q := (yMax - value) / (2 * yMax)).
  assert (Hq : q * (2 * yMax) = yMax - value) by (unfold q; field; lra).
  assert (Hq0 : 0 <= q) by nra.
  assert (Hq1 : q <= 1) by nra.
  split; nra.
Qed.

Lemma yMax_covers (props : TimePlotCanvasProps) :
  0 < TimePlotView.yMax props /\
  maxDisplayedAmplitude (signal1 props)
    (TimePlotView.shown (compareMode props) (signal2 props))
    (showSum props) (showDiff props)
  <= TimePlotView.yMax props.
Proof.
  unfold TimePlotView.yMax.
  pose proof (maxDisplayedAmplitude_lower (signal1 props)
                (TimePlotView.shown (compareMode props) (signal2 props))
                (showSum props) (showDiff props)) as [Hone _].
  unfold Math_max, Rmax. destruct Rle_dec; lra.
Qed.

(** With amplitudes that are not negative, every series the canvas draws
    stays between the top and the bottom of the plot area at every time:
    signal 1 always, signal 2 in compare mode, the sum and the difference
    when they are shown; the value 0 is drawn on the middle line. *)
Theorem series_inside_plot (props : TimePlotCanvasProps)
    (plotHeight tSec : number) :
  0 <= amplitude (signal1 props) -> 0 <= amplitude (signal2 props) ->
  0 <= plotHeight ->
  let inside value :=
    PADDING_top <= TimePlotView.toY (TimePlotView.yMax props) plotHeight value
      <= PADDING_top + plotHeight in
  let y1 := signalAt tSec (signal1 props) in
  let y2 := signalAt tSec (signal2 props) in
  inside y1 /\
  (if compareMode props then inside y2 else True) /\
  (if compareMode props && showSum props then inside (y1 + y2) else True) /\
  (if compareMode props && showDiff props then inside (y1 - y2) else True) /\
  TimePlotView.toY (TimePlotView.yMax props) plotHeight 0
  = PADDING_top + plotHeight / 2.
Proof.
  intros H1 H2 HH. cbv zeta.
  destruct (yMax_covers props) as [Hpos Hcov].
  assert (Hin : forall value,
             Rabs value
             <= maxDisplayedAmplitude (signal1 props)
                  (TimePlotView.shown (compareMode props) (signal2 props))
                  (showSum props) (showDiff props) ->
             PADDING_top
             <= TimePlotView.toY (TimePlotView.yMax props) plotHeight value
             <= PADDING_top + plotHeight).
  { intros value Hv. apply toY_inside; [exact Hpos | lra | exact HH]. }
  split; [| split; [| split; [| split]]].
  - apply Hin.
    now destruct (series_bounded tSec (signal1 props) (signal2 props)
                    (TimePlotView.shown (compareMode props) (signal2 props))
                    (showSum props) (showDiff props) H1 H2) as (_ & H & _).
  - destruct (compareMode props); [| exact I]. apply Hin.
    now destruct (series_bounded tSec (signal1 props) (signal2 props)
                    None (showSum props) (showDiff props) H1 H2)
      as (_ & _ & H & _).
  - destruct (compareMode props), (showSum props) eqn:Hs; try exact I.
    apply Hin.
    now destruct (series_bounded tSec (signal1 props) (signal2 props)
                    None true (showDiff props) H1 H2) as (_ & _ & _ & H & _).
  - destruct (compareMode props), (showDiff props) eqn:Hd; try exact I.
    apply Hin.
    now destruct (series_bounded tSec (signal1 props) (signal2 props)
                    None (showSum props) true H1 H2) as (_ & _ & _ & _ & H).
  - unfold TimePlotView.toY. as_real. field. lra.
Qed.

End PlotGeometry.

Section PlotGeometryExamples.
Import JS Signal TimePlot.

Lemma series_inside_plot_witness :
  0 <= amplitude DEFAULT_SIGNAL_1 /\ 0 <= amplitude DEFAULT_SIGNAL_2 /\
  0 <= 264 /\
  PADDING_top
  <= TimePlotView.toY
       (TimePlotView.yMax
          {| tNow := 3; windowSec := 2; signal1 := DEFAULT_SIGNAL_1;
             signal2 := DEFAULT_SIGNAL_2; compareMode := true;
             showSum := true; showDiff := false |})
       264 (signalAt 3 DEFAULT_SIGNAL_1 + signalAt 3 DEFAULT_SIGNAL_2)
  <= PADDING_top + 264.
Proof.
  assert (H1 : 0 <= amplitude DEFAULT_SIGNAL_1) by (simpl; lra).
  assert (H2 : 0 <= amplitude DEFAULT_SIGNAL_2) by (simpl; lra).
  assert (H3 : 0 <= 264) by lra.
  split; [exact H1 | split; [exact H2 | split; [exact H3 |]]].
  destruct (series_inside_plot
              {| tNow := 3; windowSec := 2; signal1 := DEFAULT_SIGNAL_1;
                 signal2 := DEFAULT_SIGNAL_2; compareMode := true;
                 showSum := true; showDiff := false |} 264 3 H1 H2 H3)
    as (_ & _ & Hsum & _).
  exact Hsum.
Defined.



End PlotGeometryExamples.

(** ** Phasor layout *)

Section PhasorLayout.
Import JS Signal TimePlot PhasorView.






End PhasorLayout.

(** ** Spectrum stems *)

Section SpectrumStems.
Import JS Signal Spectrum.

Lemma Math_max3_upper (a b c : number) :
  a <= Math_max3 a b c /\ b <= Math_max3 a b c /\ c <= Math_max3 a b c.
Proof.
  unfold Math_max3, Rmax. repeat destruct Rle_dec; repeat split; lra.
Qed.

Lemma stem_inside (maxF maxA plotWidth plotHeight f a : number) :
  20 <= maxF -> f * 1.2 <= maxF -> 1 <= maxA -> a <= maxA ->
  0 <= f -> 0 <= a -> 0 <= plotWidth -> 0 <= plotHeight ->
  PAD_left <= toX maxF plotWidth f <= PAD_left + plotWidth / 1.2 /\
  PAD_top <= toY maxA plotHeight a <= PAD_top + plotHeight.
Proof.
  intros HF Hf HA Ha Hf0 Ha0 Hw Hh. unfold toX, toY.
  set (x := f / maxF). set (y := a / maxA).
  assert (Hx : x * maxF = f) by (unfold x; field; lra).
  assert (Hy : y * maxA = a) by (unfold y; field; lra).
  assert (Hx0 : 0 <= x) by nra.
  assert (Hx1 : x * 1.2 <= 1) by nra.
  assert (Hy0 : 0 <= y) by nra.
  assert (Hy1 : y <= 1) by nra.
  repeat split; nra.
Qed.

(** With frequencies and amplitudes that are not negative, every stem the
    canvas draws stays inside the plot area: its foot is on the frequency
    axis within the left five sixths of the width, and its head between
    the top and the bottom. *)
Theorem stems_inside_plot (signal1 signal2 : SignalParams)
    (compareMode : bool) (plotWidth plotHeight : number) :
  0 <= frequency signal1 -> 0 <= amplitude signal1 ->
  0 <= frequency signal2 -> 0 <= amplitude signal2 ->
  0 <= plotWidth -> 0 <= plotHeight ->
  let maxF := maxFrequency signal1 signal2 compareMode in
  let maxA := maxAmplitude signal1 signal2 compareMode in
  let inside (signal : SignalParams) :=
    PAD_left <= toX maxF plotWidth (frequency signal)
      <= PAD_left + plotWidth / 1.2 /\
    PAD_top <= toY maxA plotHeight (amplitude signal)
      <= PAD_top + plotHeight in
  inside signal1 /\ (if compareMode then inside signal2 else True).
Proof.
  intros Hf1 Ha1 Hf2 Ha2 Hw Hh. cbv zeta.
  unfold maxFrequency, maxAmplitude.
  split.
  - match goal with
    | |- context [toX (Math_max3 ?a ?b ?c)] =>
        pose proof (Math_max3_upper a b c) as (HF1 & HF2 & _)
    end.
    match goal with
    | |- context [toY (Math_max3 ?a ?b ?c)] =>
        pose proof (Math_max3_upper a b c) as (HA1 & HA2 & _)
    end.
    apply stem_inside; assumption.
  - destruct compareMode; [| exact I].
    pose proof (Math_max3_upper 20 (frequency signal1 * 1.2)
                  (frequency signal2 * 1.2)) as (HF1 & _ & HF3).
    pose proof (Math_max3_upper 1 (amplitude signal1) (amplitude signal2))
      as (HA1 & _ & HA3).
    apply stem_inside; assumption.
Qed.

Lemma stems_inside_plot_witness :
  0 <= frequency DEFAULT_SIGNAL_1 /\ 0 <= amplitude DEFAULT_SIGNAL_1 /\
  0 <= frequency DEFAULT_SIGNAL_2 /\ 0 <= amplitude DEFAULT_SIGNAL_2 /\
  0 <= 572 /\ 0 <= 164 /\
  PAD_left
  <= toX (maxFrequency DEFAULT_SIGNAL_1 DEFAULT_SIGNAL_2 true) 572
       (frequency DEFAULT_SIGNAL_1)
  <= PAD_left + 572 / 1.2.
Proof.
  assert (H1 : 0 <= frequency DEFAULT_SIGNAL_1) by (simpl; lra).
  assert (H2 : 0 <= amplitude DEFAULT_SIGNAL_1) by (simpl; lra).
  assert (H3 : 0 <= frequency DEFAULT_SIGNAL_2) by (simpl; lra).
  assert (H4 : 0 <= amplitude DEFAULT_SIGNAL_2) by (simpl; lra).
  assert (H5 : 0 <= 572) by lra.
  assert (H6 : 0 <= 164) by lra.
  repeat (split; [assumption |]).
  destruct (stems_inside_plot DEFAULT_SIGNAL_1 DEFAULT_SIGNAL_2 true 572 164
              H1 H2 H3 H4 H5 H6) as [[H _] _].
  exact H.
Defined.

End SpectrumStems.

(** ** Clock: pause, resume, and timestamps that never go back *)

Section ClockRuns.
Import JS Signal App AppHandlers.

Lemma frames_paused (timestamps : list number) (s : State) :
  isPlaying s = false -> frames timestamps s = s.
Proof.
  intros Hp. induction timestamps as [| t ts IH]; [reflexivity |].
  change (frames (t :: ts) s) with (frames ts (frame t s)).
  unfold frame. rewrite Hp. exact IH.
Qed.

(** Pausing freezes [t_now] whatever frames arrive meanwhile and drops the
    stored timestamp; after resuming, the first frame leaves [t_now] where
    it was and the second adds only the time since that first frame. *)
Theorem pause_resume_no_drift (s : State) (paused : list number)
    (t1 t2 : number) :
  isPlaying s = true -> tNow s = simTimeRef s ->
  let p := frames paused (playPause s) in
  let r := frame t1 (playPause p) in
  isPlaying p = false /\ tNow p = tNow s /\ lastRafMsRef p = None /\
  isPlaying r = true /\ tNow r = tNow s /\
  tNow (frame t2 r) = tNow s + (t2 - t1) / 1000.
Proof.
  intros Hplay Hsync. cbv zeta.
  assert (Hp : isPlaying (playPause s) = false)
    by (unfold playPause, playingEffect; simpl; now rewrite Hplay).
  rewrite (frames_paused paused _ Hp).
  unfold playPause, playingEffect, frame, tick. simpl.
  rewrite Hplay. simpl. repeat split; try reflexivity; lra.
Qed.

Lemma pause_resume_no_drift_witness :
  isPlaying (frame 16 (frame 0 initial)) = true /\
  tNow (frame 16 (frame 0 initial))
  = simTimeRef (frame 16 (frame 0 initial)) /\
  tNow (frame 9000
          (playPause
             (frames [32; 48] (playPause (frame 16 (frame 0 initial))))))
  = tNow (frame 16 (frame 0 initial)).
Proof.
  assert (H1 : isPlaying (frame 16 (frame 0 initial)) = true)
    by reflexivity.
  assert (H2 : tNow (frame 16 (frame 0 initial))
               = simTimeRef (frame 16 (frame 0 initial))) by reflexivity.
  split; [exact H1 | split; [exact H2 |]].
  destruct (pause_resume_no_drift (frame 16 (frame 0 initial)) [32; 48]
              9000 9016 H1 H2) as (_ & _ & _ & _ & H & _).
  exact H.
Defined.

Lemma nondecreasing_last (timestamps : list number) :
  forall a, nondecreasing a timestamps -> a <= List.last timestamps a.
Proof.
  induction timestamps as [| t ts IH]; intros a Hnd; [simpl; lra |].
  destruct Hnd as [Hat Hrest].
  rewrite last_cons_default. specialize (IH t Hrest). lra.
Qed.

(** While playing, frames whose timestamps never go back (from the stored
    timestamp, when there is one) never move [t_now] back. *)
Theorem time_never_goes_back (s : State) (timestamps : list number) :
  isPlaying s = true -> tNow s = simTimeRef s ->
  nondecreasing (default (List.hd 0 timestamps) (lastRafMsRef s)) timestamps ->
  tNow s <= tNow (frames timestamps s).
Proof.
  intros Hplay Hsync Hnd.
  destruct (lastRafMsRef s) as [a |] eqn:Hlast; simpl in Hnd.
  - destruct (frames_playing timestamps s a Hplay Hlast Hsync)
      as (_ & _ & H3 & H4).
    pose proof (nondecreasing_last timestamps a Hnd). rewrite H4, H3. lra.
  - destruct timestamps as [| t ts]; [simpl; lra |].
    destruct Hnd as [_ Hrest].
    change (frames (t :: ts) s) with (frames ts (frame t s)).
    assert (Hf : frame t s = tick t s) by (unfold frame; now rewrite Hplay).
    destruct (frames_playing ts (frame t s) t) as (_ & _ & H3 & H4).
    + rewrite Hf. exact Hplay.
    + rewrite Hf. reflexivity.
    + rewrite Hf. reflexivity.
    + pose proof (nondecreasing_last ts t Hrest).
      rewrite H4, H3, Hf. unfold tick. rewrite Hlast. simpl. lra.
Qed.

Lemma time_never_goes_back_witness :
  isPlaying initial = true /\ tNow initial = simTimeRef initial /\
  nondecreasing (default (List.hd 0 [5; 21; 21; 40]) (lastRafMsRef initial))
    [5; 21; 21; 40] /\
  tNow initial <= tNow (frames [5; 21; 21; 40] initial).
Proof.
  assert (H1 : isPlaying initial = true) by reflexivity.
  assert (H2 : tNow initial = simTimeRef initial) by reflexivity.
  assert (H3 : nondecreasing
                 (default (List.hd 0 [5; 21; 21; 40]) (lastRafMsRef initial))
                 [5; 21; 21; 40]) by (simpl; lra).
  split; [exact H1 | split; [exact H2 | split; [exact H3 |]]].
  apply (time_never_goes_back initial [5; 21; 21; 40] H1 H2 H3).
Defined.

(** A phase change of less than half a turn is registered as a left shift
    when the phase grows and as a right shift when it falls; a change by
    whole turns leaves the direction as it was; a change back by exactly
    half a turn counts as a left shift. *)
Theorem registerPhaseShift_direction (previous d : number) (k : Z)
    (direction : PhaseShiftDirection) :
  1e-8 <= d -> d < Math_PI ->
  registerPhaseShift previous (previous + d) direction = ShiftLeft /\
  registerPhaseShift previous (previous - d) direction = ShiftRight /\
  registerPhaseShift previous (previous + 2 * Math_PI * IZR k) direction
  = direction /\
  registerPhaseShift previous (previous - Math_PI) direction = ShiftLeft.
Proof.
  intros Hd Hpi. pose proof PI_RGT_0 as Hpos. unfold Math_PI in *.
  assert (Hup : normalizePhase (previous + d - previous) = d).
  { replace (previous + d - previous) with d by lra.
    apply normalizePhase_fixed. unfold Math_PI. lra. }
  assert (Hdown : normalizePhase (previous - d - previous) = - d).
  { replace (previous - d - previous) with (- d) by lra.
    apply normalizePhase_fixed. unfold Math_PI. lra. }
  assert (Hturn : normalizePhase (previous + 2 * PI * IZR k - previous) = 0).
  { rewrite (normalizePhase_congr _ 0 k) by (unfold Math_PI; lra).
    apply normalizePhase_fixed. unfold Math_PI. lra. }
  assert (Hhalf : normalizePhase (previous - PI - previous) = PI).
  { replace (previous - PI - previous) with (- PI) by lra.
    rewrite (normalizePhase_congr _ PI (-1)) by (unfold Math_PI; lra).
    apply normalizePhase_fixed. unfold Math_PI. lra. }
  unfold registerPhaseShift. rewrite Hup, Hdown, Hturn, Hhalf.
  rewrite Rabs_Ropp, Rabs_R0, !Rabs_pos_eq by lra.
  repeat split.
  - destruct Rlt_dec; [lra |]. destruct Rgt_dec; [reflexivity | lra].
  - destruct Rlt_dec; [lra |]. destruct Rgt_dec; [lra | reflexivity].
  - destruct Rlt_dec; [reflexivity | lra].
  - destruct Rlt_dec; [lra |]. destruct Rgt_dec; [reflexivity | lra].
Qed.

Lemma registerPhaseShift_direction_witness :
  1e-8 <= 1 /\ 1 < Math_PI /\
  registerPhaseShift 0 (0 + 1) ShiftNone = ShiftLeft.
Proof.
  assert (H1 : 1e-8 <= 1) by lra.
  assert (H2 : 1 < Math_PI).
  { unfold Math_PI. pose proof PI2_1. lra. }
  split; [exact H1 | split; [exact H2 |]].
  destruct (registerPhaseShift_direction 0 1 0 ShiftNone H1 H2) as [H _].
  exact H.
Defined.

Lemma handle_keeps_lock (s : State) (e : Event) :
  (compareMode s && lockSignal1 s = true -> signal1 s = DEFAULT_SIGNAL_1) ->
  compareMode (handle s e) && lockSignal1 (handle s e) = true ->
  signal1 (handle s e) = DEFAULT_SIGNAL_1.
Proof.
  intros Hinv. unfold handle, available.
  destruct e as [next key | next key | value | value | | | nowMs].
  - destruct (compareMode s && lockSignal1 s) eqn:Hm; simpl.
    + intros _. now apply Hinv.
    + rewrite Hm. discriminate.
  - destruct (compareMode s) eqn:Hc; simpl; rewrite ?Hc; exact Hinv.
  - unfold handleCompareModeChange.
    destruct value, (lockSignal1 s) eqn:Hl; simpl;
      rewrite ?Hl; try discriminate; try reflexivity.
  - destruct (compareMode s) eqn:Hc; [| rewrite Hc; exact Hinv].
    unfold handleLockSignal1Change.
    destruct value; simpl; rewrite ?Hc; try discriminate; reflexivity.
  - unfold playPause, playingEffect. simpl.
    destruct (isPlaying s); simpl; exact Hinv.
  - reflexivity.
  - unfold frame. destruct (isPlaying s); simpl; exact Hinv.
Qed.

(** Whatever the user does, in compare mode with the lock on, signal 1 is
    the default signal. *)
Theorem locked_signal1_is_default (events : list Event) :
  if compareMode (session events) && lockSignal1 (session events)
  then signal1 (session events) = DEFAULT_SIGNAL_1
  else True.
Proof.
  assert (Hinv : compareMode (session events) && lockSignal1 (session events)
                 = true -> signal1 (session events) = DEFAULT_SIGNAL_1).
  { unfold session.
    induction events as [| e events IH] using rev_ind.
    - reflexivity.
    - rewrite foldl_app. simpl. now apply handle_keeps_lock. }
  destruct (compareMode (session events) && lockSignal1 (session events));
    [now apply Hinv | exact I].
Qed.

End ClockRuns.

(** ** Audio hook: lifecycle and automation logs *)

Section AudioLifecycle.
Import JS Signal Audio AudioLog.

(** A property kept by every action holds after every run. *)
Lemma run_invariant (P : Hook -> Prop) :
  (forall h a, P h -> P (step h a)) ->
  forall actions h, P h -> P (run actions h).
Proof.
  intros Hstep actions. unfold run.
  induction actions as [| a actions IH]; intros h Hh; simpl; auto.
Qed.

Lemma stop_wellFormed (h : Hook) :
  wellFormed h ->
  wellFormed (stop h) /\ isStarted (stop h) = false /\
  oscillatorRef (stop h) = None /\ gainRef (stop h) = None.
Proof.
  intros (Ho & Hg & Hs). unfold wellFormed, stop, cleanupNodes.
  destruct (contextRef h) eqn:Hc; simpl.
  - repeat split; auto; discriminate.
  - destruct (isStarted h) eqn:Hst.
    + destruct (Hs eq_refl) as [Hctx _]. congruence.
    + destruct (oscillatorRef h), (gainRef h); simpl in *;
        try discriminate; repeat split; auto; discriminate.
Qed.

Lemma start_wellFormed (platform : Platform) (now amplitude frequency : number)
    (h : Hook) :
  wellFormed h -> wellFormed (start platform now amplitude frequency h).
Proof.
  intros (Ho & Hg & Hs). unfold wellFormed, start, failed, cleanupNodes.
  destruct platform, (contextRef h) eqn:Hc; simpl;
    try (repeat split; auto; discriminate).
  destruct (isStarted h) eqn:Hst.
  - destruct (Hs eq_refl) as [Hctx _]. congruence.
  - destruct (oscillatorRef h), (gainRef h); simpl in *;
      try discriminate; repeat split; auto; discriminate.
Qed.

Lemma updateEffect_wellFormed (enabled : bool)
    (now amplitude frequency : number) (h : Hook) :
  wellFormed h -> wellFormed (updateEffect enabled now amplitude frequency h).
Proof.
  intros Hwf. pose proof Hwf as (Ho & Hg & Hs). unfold updateEffect.
  destruct (isStarted h) eqn:Hst, enabled; simpl; try exact Hwf.
  destruct (contextRef h) eqn:Hc, (oscillatorRef h) as [o |] eqn:Hosc,
           (gainRef h) as [g |] eqn:Hgain; try exact Hwf.
  unfold wellFormed. simpl. repeat split; auto; now destruct (Hs eq_refl).
Qed.

Lemma step_wellFormed (h : Hook) (a : Action) :
  wellFormed h -> wellFormed (step h a).
Proof.
  intros Hwf. destruct a as [platform now amp freq | | enabled now amp freq];
    simpl.
  - now apply start_wellFormed.
  - now apply stop_wellFormed.
  - apply updateEffect_wellFormed. unfold disableEffect.
    destruct (negb enabled && isStarted h); [now apply stop_wellFormed | auto].
Qed.

Lemma initial_wellFormed : wellFormed initial.
Proof. unfold wellFormed, initial. simpl. repeat split; discriminate. Qed.

Lemma run_wellFormed (actions : list Action) : wellFormed (run actions initial).
Proof.
  apply (run_invariant wellFormed step_wellFormed), initial_wellFormed.
Qed.

(** After any run of the hook, the oscillator and the gain node exist
    exactly when the hook reports started, so at most as one pair; a
    started hook has its audio context and shows no error. *)
Theorem hook_lifecycle (actions : list Action) :
  isStarted (run actions initial)
  = bool_decide (is_Some (oscillatorRef (run actions initial))) /\
  isStarted (run actions initial)
  = bool_decide (is_Some (gainRef (run actions initial))) /\
  (if isStarted (run actions initial)
   then contextRef (run actions initial) = true /\
        error (run actions initial) = None
   else True).
Proof.
  destruct (run_wellFormed actions) as (Ho & Hg & Hs).
  split; [exact Ho | split; [exact Hg |]].
  destruct (isStarted (run actions initial)); [now apply Hs | exact I].
Qed.

(** After any run, [stop()] and a render with audio disabled both leave
    the hook stopped without nodes, and stopping twice is stopping once. *)
Theorem stop_releases_nodes (actions : list Action)
    (now amplitude frequency : number) :
  let h := run actions initial in
  let released h' :=
    isStarted h' = false /\ oscillatorRef h' = None /\ gainRef h' = None in
  released (step h Stop) /\
  released (step h (Render false now amplitude frequency)) /\
  stop (stop h) = stop h.
Proof.
  cbv zeta. pose proof (run_wellFormed actions) as Hwf.
  set (h := run actions initial) in *.
  destruct (stop_wellFormed h Hwf) as (_ & Hs & Ho & Hg).
  split; [simpl; auto |]. split.
  - simpl. unfold disableEffect, updateEffect. simpl.
    destruct (isStarted h) eqn:Hst; simpl.
    + split; [reflexivity | split; [exact Ho | exact Hg]].
    + rewrite Hst. simpl. destruct Hwf as (Hwo & Hwg & _).
      rewrite Hst in Hwo, Hwg.
      destruct (oscillatorRef h), (gainRef h); simpl in *;
        try discriminate; auto.
  - unfold stop, cleanupNodes. destruct (contextRef h) eqn:Hc; simpl.
    + reflexivity.
    + rewrite Hc. simpl. reflexivity.
Qed.

(** After any run, a [start()] whose node creation throws leaves the hook
    stopped, with the error message and without nodes (a pair that was
    playing is gone); the next successful [start()] clears the error.  On
    a fresh hook, a missing [AudioContext] gives the same error. *)
Theorem failed_start_is_stopped (actions : list Action)
    (now amplitude frequency : number) :
  let h := start NoNodes now amplitude frequency (run actions initial) in
  isStarted h = false /\
  error h = Some "Audio could not be started in this browser."%string /\
  oscillatorRef h = None /\ gainRef h = None /\
  error (start Available now amplitude frequency h) = None /\
  isStarted (start Available now amplitude frequency h) = true /\
  isStarted (start NoAudioContext now amplitude frequency initial) = false /\
  error (start NoAudioContext now amplitude frequency initial)
  = Some "Audio could not be started in this browser."%string.
Proof.
  cbv zeta. set (h := run actions initial).
  unfold start, failed, cleanupNodes, withContext. simpl.
  destruct (contextRef h); simpl; repeat split; reflexivity.
Qed.

Lemma step_smooth (h : Hook) (a : Action) : smooth h -> smooth (step h a).
Proof.
  intros [Hgain Hfreq].
  assert (Hstop : smooth (stop h)).
  { unfold smooth, stop, cleanupNodes, gainLog.
    destruct (contextRef h); simpl; [split; [constructor | exact I] |].
    split; [exact Hgain | exact Hfreq]. }
  assert (Hupdate : forall enabled now amp freq h0,
             smooth h0 -> smooth (updateEffect enabled now amp freq h0)).
  { intros enabled now amp freq h0 [Hg0 Hf0]. unfold updateEffect.
    destruct (negb (isStarted h0) || negb enabled); [now split |].
    destruct (contextRef h0), (oscillatorRef h0) as [o |] eqn:Ho,
             (gainRef h0) as [g |] eqn:Hg; try (now split; rewrite ?Ho).
    unfold smooth, gainLog in *. simpl. rewrite Hg in Hg0. split.
    - repeat constructor; assumption.
    - destruct Hf0 as (newer & value & time & -> & Hnewer).
      exists (SetTargetAtTime
                (clamp freq MIN_AUDIO_FREQUENCY MAX_AUDIO_FREQUENCY) now
                RAMP_SECONDS :: CancelScheduledValues now :: newer),
        value, time.
      split; [reflexivity | repeat constructor; assumption]. }
  destruct a as [platform now amp freq | | enabled now amp freq]; simpl.
  - unfold start, failed, cleanupNodes, withContext.
    assert (Hnew : forall ctx,
               smooth
                 {| isStarted := true; error := None; contextRef := ctx;
                    oscillatorRef :=
                      Some {| osc_frequency :=
                                [SetValueAtTime
                                   (clamp freq MIN_AUDIO_FREQUENCY
                                      MAX_AUDIO_FREQUENCY) now];
                              osc_startedAt := Some now;
                              osc_connected := true |};
                    gainRef :=
                      Some {| gain_gain :=
                                [SetTargetAtTime
                                   (clamp (amp / MAX_AMPLITUDE) 0 1 * MAX_GAIN)
                                   now RAMP_SECONDS;
                                 SetValueAtTime 0 now];
                              gain_connected := true |} |}).
    { intros ctx. unfold smooth, gainLog. simpl. split.
      - repeat constructor.
      - exists [], (clamp freq MIN_AUDIO_FREQUENCY MAX_AUDIO_FREQUENCY), now.
        split; [reflexivity | constructor]. }
    destruct platform, (contextRef h); simpl;
      first [ apply Hnew
            | split; [exact Hgain | exact Hfreq]
            | unfold smooth, gainLog; simpl; split; [constructor | exact I] ].
  - exact Hstop.
  - apply Hupdate. unfold disableEffect.
    destruct (negb enabled && isStarted h); [exact Hstop | now split].
Qed.

(** After any run, the gain was only ever changed by ramps of
    [RAMP_SECONDS], by cancelling, or by setting it to 0 at once; the
    frequency of the live oscillator was set at once only when it was
    created and changed by ramps since. *)
Theorem no_audible_jumps (actions : list Action) :
  Forall quietStart (gainLog (run actions initial)) /\
  rampsAfterCreation (frequencyLog (run actions initial)).
Proof.
  assert (Hs : smooth (run actions initial)).
  { apply (run_invariant smooth step_smooth).
    split; [constructor | exact I]. }
  destruct Hs as [Hgain Hfreq]. split; [exact Hgain |].
  unfold rampsAfterCreation, frequencyLog.
  destruct (oscillatorRef (run actions initial)); [right | left]; auto.
Qed.

End AudioLifecycle.
